(** * Zero-shot likelihood scoring and paired-control evaluation of chrombench

    A shallow embedding of
      - [src/dnalm_bench/paired_control/zero_shot/evaluators.py]
      - [src/dnalm_bench/single/evaluators.py]
      - [src/dnalm_bench/single/finetune.py] (the training step of
        [train_finetuned_chromatin_model])

    Conventions.
      - Integer tensors hold [Z]; float tensors and numpy floats are idealised
        as exact rationals [Qc]: rounding, overflow and underflow are not
        modelled, so a statement gives the expression the code evaluates,
        and none relies on an identity that holds for rationals and not for
        floats.  A float that may fail to be a number is an [npval].
      - Two-dimensional integer tensors (token ids, attention masks) live in a
        [store] and are passed by reference, because the masked scorer clones
        and overwrites them; one-dimensional tensors are never written to in
        the source and are passed by value.
      - Python exceptions are values of [exn]; a computation is a function
        from the store to a result-or-exception and the store it leaves.
      - The pretrained network, the HuggingFace tokenizer and
        [scipy.stats.wilcoxon] are external: they are parameters. *)

From Stdlib Require Import QArith Qcanon.
From stdpp Require Import base numbers list sorting gmap strings.

Local Open Scope Z_scope.

(** ** Exceptions and the store monad *)

Inductive exn : Type :=
  | TypeError
  | AttributeError
  | KeyError
  | ValueError
  | RuntimeError
  | OutOfMemoryError.

Global Instance exn_eq_dec : EqDecision exn.
Proof. solve_decision. Defined.

Inductive device : Type := CPU | CUDA.

Global Instance device_eq_dec : EqDecision device.
Proof. solve_decision. Defined.

(** A two-dimensional integer tensor of shape [(length t_rows, t_cols)]. *)
Record tensor : Type := Tensor {
  t_device : device;
  t_cols : nat;
  t_rows : list (list Z)
}.

Global Instance tensor_eq_dec : EqDecision tensor.
Proof. solve_decision. Defined.

Definition tensor_wf (t : tensor) : Prop :=
  Forall (λ r, length r = t_cols t) (t_rows t).

Definition loc := positive.

(** One invocation of the network: the token ids it was given and the
    attention mask (if any). *)
Record fwd_call : Type := FwdCall {
  call_tokens : list (list Z);
  call_mask : option (list (list Z))
}.

Global Instance fwd_call_eq_dec : EqDecision fwd_call.
Proof. solve_decision. Defined.

Record store : Type := Store {
  heap : gmap loc tensor;
  fwd_log : list fwd_call
}.

Global Instance store_eq_dec : EqDecision store.
Proof. solve_decision. Defined.

(** Pure code that may raise. *)
Global Instance exn_ret : MRet (sum exn) := λ A a, inr a.
Global Instance exn_bind : MBind (sum exn) := λ A B f r,
  match r with
  | inr a => f a
  | inl e => inl e
  end.

Definition M (A : Type) : Type := store → (exn + A) * store.

Global Instance M_ret : MRet M := λ A a st, (inr a, st).
Global Instance M_bind : MBind M := λ A B f m st,
  match m st with
  | (inr a, st') => f a st'
  | (inl e, st') => (inl e, st')
  end.

Definition raise {A} (e : exn) : M A := λ st, (inl e, st).

Definition lift {A} (r : exn + A) : M A := λ st, (r, st).

(** [for i in range(n): acc = body(i, acc)] *)
Fixpoint for_range_from {S} (start : nat) (n : nat) (body : nat → S → M S) (acc : S)
    : M S :=
  match n with
  | O => mret acc
  | Datatypes.S n' => acc' ← body start acc; for_range_from (Datatypes.S start) n' body acc'
  end.

Definition for_range {S} (n : nat) (body : nat → S → M S) (acc : S) : M S :=
  for_range_from 0 n body acc.

(** ** Tensor primitives *)

Definition deref (l : loc) : M tensor := λ st,
  match heap st !! l with
  | Some t => (inr t, st)
  | None => (inl RuntimeError, st)
  end.

Definition alloc (t : tensor) : M loc := λ st,
  let l := fresh (dom (heap st)) in
  (inr l, Store (<[l := t]> (heap st)) (fwd_log st)).

Definition write (l : loc) (t : tensor) : M unit := λ st,
  (inr (), Store (<[l := t]> (heap st)) (fwd_log st)).

(** [t.to(device=d)]: the tensor itself when it already lives on [d],
    otherwise a copy on [d]. *)
Definition tensor_to (d : device) (l : loc) : M loc :=
  t ← deref l;
  if decide (t_device t = d) then mret l
  else alloc (Tensor d (t_cols t) (t_rows t)).

(** [t.clone()] *)
Definition clone (l : loc) : M loc :=
  t ← deref l; alloc t.

(** [t[:, i, ...] = v] for [0 <= i < t.shape[1]] *)
Definition setitem_col (l : loc) (i : nat) (v : Z) : M unit :=
  t ← deref l;
  write l (Tensor (t_device t) (t_cols t) (map (λ r, <[i := v]> r) (t_rows t))).

(** Shapes [(a,)] and [(b,)] broadcast together when they agree or one of
    them is 1; otherwise torch raises [RuntimeError] and numpy [ValueError]
    (the argument [err]). *)
Definition broadcast1 {A B C} (err : exn) (f : A → B → C) (x : list A) (y : list B)
    : exn + list C :=
  if decide (length x = length y) then inr (zip_with f x y)
  else match x, y with
       | [a], _ => inr (map (f a) y)
       | _, [b] => inr (map (λ a, f a b) x)
       | _, _ => inl err
       end.

(** Values that reach a positional parameter of [model_fwd]. *)
Inductive pyarg : Type :=
  | PyNone
  | PyTensor (l : loc).

(** Boundary offsets as [tokenize] returns them: the Python integer [0]
    or a one-dimensional integer tensor with one entry per match. *)
Inductive offsets : Type :=
  | Scalar (z : Z)
  | PerSeq (v : list Z).

Global Instance pyarg_eq_dec : EqDecision pyarg.
Proof. solve_decision. Defined.

Global Instance offsets_eq_dec : EqDecision offsets.
Proof. solve_decision. Defined.

(** The value of [(i >= starts) & (i < ends)]. *)
Inductive clip : Type :=
  | ClipBool (b : bool)
  | ClipVec (v : list bool).

Definition in_range (i s e : Z) : bool := bool_decide (s ≤ i) && bool_decide (i < e).

(** [(i >= starts) & (i < ends)] for the Python integer [i].  Against an
    integer a comparison gives a Python [bool], against a tensor a boolean
    tensor; [&] of two booleans is a boolean, [&] of a boolean and a tensor
    broadcasts the boolean, and [&] of two tensors broadcasts their
    shapes. *)
Definition clip_and (i : Z) (starts ends : offsets) : exn + clip :=
  match starts, ends with
  | Scalar s, Scalar e => inr (ClipBool (in_range i s e))
  | Scalar s, PerSeq es => inr (ClipVec (map (λ e, in_range i s e) es))
  | PerSeq ss, Scalar e => inr (ClipVec (map (λ s, in_range i s e) ss))
  | PerSeq ss, PerSeq es => v ← broadcast1 RuntimeError (in_range i) ss es; inr (ClipVec v)
  end.

Definition b2q (b : bool) : Qc := if b then 1%Qc else 0%Qc.

Definition Qc_sum (l : list Qc) : Qc := foldr Qcplus 0%Qc l.

Definition column (i : nat) (m : list (list Qc)) : list Qc :=
  map (λ r, default 0%Qc (r !! i)) m.

(** [lls[:, i] = col]: the right-hand side must have one entry per row, or
    a single entry that is broadcast. *)
Definition set_column (i : nat) (col : list Qc) (lls : list (list Qc))
    : exn + list (list Qc) :=
  if decide (length col = length lls) then
    inr (zip_with (λ r c, <[i := c]> r) lls col)
  else match col with
       | [c] => inr (map (λ r, <[i := c]> r) lls)
       | _ => inl RuntimeError
       end.

(** ** The evaluator object

    The attributes every evaluator class reads from [self]:
    [self.device], the token ids [self.mask_token], [self.start_token] and
    [self.end_token] (the last two may be [None]), and [self.model].  The
    network is external; [log_softmax self tokens mask n t v] is the
    log-probability that the network, run on [tokens] with [mask], gives to
    vocabulary id [v] at position [t] of row [n], that is the log-softmax
    that [F.cross_entropy] takes of its logits. *)
Record evaluator : Type := Evaluator {
  self_device : device;
  mask_token : Z;
  start_token : option Z;
  end_token : option Z;
  log_softmax : list (list Z) → option (list (list Z)) → nat → nat → Z → Qc
}.

(** A two-dimensional float tensor of shape [(length f_rows, f_cols)]. *)
Record ftensor : Type := FTensor {
  f_cols : nat;
  f_rows : list (list Qc)
}.

(** What a run of the network returns, as far as the scorers look at it:
    for row [n], position [t] and vocabulary id [v], the log-softmax of
    [torch_outs.logits[n, t, :]] at [v]. *)
Definition logits := nat → nat → Z → Qc.

(** [-F.cross_entropy(logits.swapaxes(1, 2), target, reduction="none")] *)
Definition neg_cross_entropy (lg : logits) (target : tensor) : ftensor :=
  FTensor (t_cols target) (imap (λ n row, imap (λ t v, lg n t v) row) (t_rows target)).

(** Recording one run of [self.model]. *)
Definition log_call (c : fwd_call) : M unit := λ st,
  (inr (), Store (heap st) (fwd_log st ++ [c])).

(** [self.model(tokens, attention_mask=am, encoder_attention_mask=am)],
    or [self.model(tokens)] when [am] is [PyNone]. *)
Definition run_model (self : evaluator) (tokens : loc) (attention_mask : pyarg)
    : M logits :=
  tk ← deref tokens;
  am ← match attention_mask with
       | PyNone => mret None
       | PyTensor a => m ← deref a; mret (Some (t_rows m))
       end;
  log_call (FwdCall (t_rows tk) am);;
  mret (log_softmax self (t_rows tk) am).

(** [try: m except: h] with a bare [except]. *)
Definition try_except {A} (m h : M A) : M A := λ st,
  match m st with
  | (inl _, st') => h st'
  | r => r
  end.

(** [x.to(device=...)] on the value of [(i >= starts) & (i < ends)]: a
    Python [bool] has no method [to]. *)
Definition clip_to (c : clip) : exn + list bool :=
  match c with
  | ClipBool _ => inl AttributeError
  | ClipVec v => inr v
  end.

(** [zip(starts, ends)]: both arguments must be iterable. *)
Definition py_zip (starts ends : offsets) : exn + list (Z * Z) :=
  match starts, ends with
  | PerSeq ss, PerSeq es => inr (zip ss es)
  | _, _ => inl TypeError
  end.

(** [[[(i >= s) and (i < e) for i in range(T)] for s, e in pairs]] *)
Definition clip_rows (T : nat) (pairs : list (Z * Z)) : list (list bool) :=
  map (λ '(s, e), map (λ i, in_range i s e) (seqZ 0 (Z.of_nat T))) pairs.

(** [lls * clip_mask] for [clip_mask = torch.tensor(rows, dtype=torch.float)]:
    an empty [rows] gives a tensor of shape [(0,)], otherwise the row
    dimensions broadcast. *)
Definition mul_clip (lls : ftensor) (clip_mask : list (list bool))
    : exn + list (list Qc) :=
  match clip_mask with
  | [] =>
      if decide (f_cols lls = 0 ∨ f_cols lls = 1)%nat
      then inr (map (λ _, []) (f_rows lls))
      else inl RuntimeError
  | _ => broadcast1 RuntimeError (λ r m, zip_with (λ x b, (x * b2q b)%Qc) r m) (f_rows lls) clip_mask
  end.

(** [torch.where(tokens == v)[1]]: the column index of every match, rows in
    order and columns in order within a row. *)
Definition where_row (v : Z) (r : list Z) : list Z :=
  omap (λ '(j, x), if decide (x = v) then Some (Z.of_nat j) else None) (imap pair r).

Definition where_cols (v : Z) (rows : list (list Z)) : list Z :=
  concat (map (where_row v) rows).

(** [attention_mask.sum(dim=1)] *)
Definition row_sums (rows : list (list Z)) : list Z :=
  map (foldr Z.add 0) rows.

(** One turn of the loop of [MaskedZeroShotScore.score], lines 25 to 28:
    position [i], with [lls] as the earlier turns left it. *)
Definition masked_score_step (self : evaluator) (fwd : list pyarg → M ftensor)
    (tokens attention_mask : loc) (starts ends : offsets)
    (i : nat) (lls : list (list Qc)) : M (list (list Qc)) :=
  clip_mask ← lift (clip_and (Z.of_nat i) starts ends ≫= clip_to);
  masked_tokens ← clone tokens;
  setitem_col masked_tokens i (mask_token self);;
  out ← fwd [PyTensor masked_tokens; PyTensor attention_mask];
  col ← lift (broadcast1 RuntimeError (λ x b, (x * b2q b)%Qc) (column i (f_rows out)) clip_mask);
  lift (set_column i col lls).

(** The body shared, line for line, by [MaskedZeroShotScore.score] of both
    files; [fwd] is the method [self.model_fwd] resolves to. *)
Definition masked_score (self : evaluator) (fwd : list pyarg → M ftensor)
    (tokens : loc) (starts ends : offsets) (attention_mask : pyarg) : M (list Qc) :=
  tokens ← tensor_to (self_device self) tokens;
  attention_mask ← match attention_mask with
                   | PyNone => raise AttributeError
                   | PyTensor a => tensor_to (self_device self) a
                   end;
  t ← deref tokens;
  lls ← for_range (t_cols t)
          (masked_score_step self fwd tokens attention_mask starts ends)
          (replicate (length (t_rows t)) (replicate (t_cols t) 0%Qc));
  mret (map Qc_sum lls).

(** ** [paired_control/zero_shot/evaluators.py] *)
Module PairedControl.

(** [HFZeroShotEvaluator.model_fwd(self, tokens, attention_mask)], called
    with the positional arguments [args]. *)
Definition model_fwd (self : evaluator) (args : list pyarg) : M ftensor :=
  match args with
  | [PyTensor tokens; attention_mask] =>
      torch_outs ← run_model self tokens attention_mask;
      tk ← deref tokens;
      mret (neg_cross_entropy torch_outs tk)
  | [PyNone; _] => raise ValueError
  | _ => raise TypeError
  end.

(** [MaskedZeroShotScore.score(self, tokens, starts, ends, attention_mask)] *)
Definition MaskedZeroShotScore_score (self : evaluator) (fwd : list pyarg → M ftensor)
    (tokens : loc) (starts ends : offsets) (attention_mask : pyarg) : M (list Qc) :=
  masked_score self fwd tokens starts ends attention_mask.

(** [CausalZeroShotScore.score(self, tokens, starts, ends, attention_mask)] *)
Definition CausalZeroShotScore_score (self : evaluator) (fwd : list pyarg → M ftensor)
    (tokens : loc) (starts ends : offsets) (attention_mask : pyarg) : M (list Qc) :=
  tokens ← tensor_to (self_device self) tokens;
  lls ← fwd [PyTensor tokens];
  pairs ← lift (py_zip starts ends);
  out ← lift (mul_clip lls (clip_rows (f_cols lls) pairs));
  mret (map Qc_sum out).

(** [HFZeroShotEvaluator.tokenize], from the tokenizer's output
    [encoded = self.tokenizer.batch_encode_plus(...)] on. *)
Definition tokenize (self : evaluator) (encoded : gmap string loc)
    : M (loc * offsets * offsets * pyarg) :=
  tokens ← lift (from_option inr (inl KeyError) (encoded !! "input_ids"));
  attention_mask ← lift (from_option inr (inl KeyError) (encoded !! "attention_mask"));
  tk ← deref tokens;
  let starts := match start_token self with
                | Some s => PerSeq (map (Z.add 1) (where_cols s (t_rows tk)))
                | None => Scalar 0
                end in
  ends ← match end_token self with
         | Some e => mret (PerSeq (where_cols e (t_rows tk)))
         | None => am ← deref attention_mask; mret (PerSeq (row_sums (t_rows am)))
         end;
  mret (tokens, starts, ends, PyTensor attention_mask).

End PairedControl.

(** ** [single/evaluators.py] *)
Module Single.

(** [LikelihoodEvaluator.tokenize], from the tokenizer's output on. *)
Definition tokenize (self : evaluator) (encoded : gmap string loc)
    : M (loc * offsets * offsets * pyarg) :=
  tokens ← lift (from_option inr (inl KeyError) (encoded !! "input_ids"));
  let attention_mask := match encoded !! "attention_mask" with
                        | Some a => PyTensor a
                        | None => PyNone
                        end in
  tk ← deref tokens;
  let starts := match start_token self with
                | Some s => PerSeq (map (Z.add 1) (where_cols s (t_rows tk)))
                | None => PerSeq (replicate (length (t_rows tk)) 0)
                end in
  ends ← match end_token self with
         | Some e => mret (PerSeq (where_cols e (t_rows tk)))
         | None =>
             match attention_mask with
             | PyNone => raise AttributeError
             | PyTensor a => am ← deref a; mret (PerSeq (row_sums (t_rows am)))
             end
         end;
  mret (tokens, starts, ends, attention_mask).

(** [LikelihoodEvaluator.model_fwd(self, tokens, attention_mask)] *)
Definition model_fwd (self : evaluator) (args : list pyarg) : M ftensor :=
  match args with
  | [PyTensor tokens; attention_mask] =>
      torch_outs ← try_except (run_model self tokens attention_mask)
                              (run_model self tokens PyNone);
      tk ← deref tokens;
      mret (neg_cross_entropy torch_outs tk)
  | [PyNone; _] => raise ValueError
  | _ => raise TypeError
  end.

(** [MaskedZeroShotScore.score(self, tokens, starts, ends, attention_mask,
    offsets)]; [offsets] is not read. *)
Definition MaskedZeroShotScore_score (self : evaluator) (fwd : list pyarg → M ftensor)
    (tokens : loc) (starts ends : offsets) (attention_mask : pyarg)
    (offset_mapping : pyarg) : M (list Qc) :=
  masked_score self fwd tokens starts ends attention_mask.

(** [CausalZeroShotScore.score(self, tokens, starts, ends, attention_mask)] *)
Definition CausalZeroShotScore_score (self : evaluator) (fwd : list pyarg → M ftensor)
    (tokens : loc) (starts ends : offsets) (attention_mask : pyarg) : M (list Qc) :=
  tokens ← tensor_to (self_device self) tokens;
  lls ← fwd [PyTensor tokens; attention_mask];
  pairs ← lift (py_zip starts ends);
  out ← lift (mul_clip lls (clip_rows (f_cols lls) pairs));
  mret (map Qc_sum out).

End Single.

(** ** numpy and scipy *)

(** A float: a number, or not one.  [NaN] stands for NaN and, in the loss
    of [single/finetune.py], for an infinity too: every operation the
    source applies to such a value (adding, subtracting and dividing by a
    Python number, squaring, averaging) gives a value that is again not a
    number. *)
Inductive npval : Type :=
  | Num (q : Qc)
  | NaN.

Global Instance npval_eq_dec : EqDecision npval.
Proof. solve_decision. Defined.

(** [np.concatenate(arrays)] *)
Definition np_concatenate {A} (arrays : list (list A)) : exn + list A :=
  match arrays with
  | [] => inl ValueError
  | _ => inr (concat arrays)
  end.

(** [a.mean()]: NaN for an empty array, otherwise the sum over the length.
    numpy adds in floating point, in an order of its own, so the value it
    returns is this one up to rounding. *)
Definition np_mean (a : list Qc) : npval :=
  match a with
  | [] => NaN
  | _ => Num (Qc_sum a / Qc_of_Z (Z.of_nat (length a)))
  end.

Definition np_sort (a : list Qc) : list Qc := merge_sort Qcle a.

(** [np.percentile(a, q)] for an integer [q] in [0, 100]: linear
    interpolation between the two order statistics around the virtual index
    [(n - 1) * q / 100]. *)
Definition np_percentile (a : list Qc) (q : Z) : npval :=
  match a with
  | [] => NaN
  | _ =>
      let sorted := np_sort a in
      let h := (Z.of_nat (length a) - 1) * q in
      let lo := Z.to_nat (h `div` 100) in
      let g := (Qc_of_Z (h `mod` 100) / Qc_of_Z 100)%Qc in
      let x := default 0%Qc (sorted !! lo) in
      let y := default x (sorted !! Datatypes.S lo) in
      Num (x + g * (y - x))%Qc
  end.

(** [np.median(a)] *)
Definition np_median (a : list Qc) : npval :=
  match a with
  | [] => NaN
  | _ =>
      let sorted := np_sort a in
      let n := length a in
      let hi := default 0%Qc (sorted !! (n / 2)%nat) in
      if Nat.even n
      then Num ((default 0%Qc (sorted !! (n / 2 - 1)%nat) + hi) / 2%Qc)%Qc
      else Num hi
  end.

Inductive alternative : Type := TwoSided | Less | Greater.

(** The value [scipy.stats.wilcoxon] returns. *)
Record WilcoxonResult : Type := MkWilcoxonResult {
  statistic : npval;
  pvalue : npval
}.

Global Instance WilcoxonResult_eq_dec : EqDecision WilcoxonResult.
Proof. solve_decision. Defined.

(** ** The paired evaluator, [ZeroShotPairedControlEvaluator.evaluate] *)
Module PairedEvaluator.
Section Evaluate.

(** What the dataloader yields for one arm of one batch. *)
Context {B : Type}.
(** The abstract methods [self.tokenize] and [self.score]. *)
Variable tokenize : B → M (loc * offsets * offsets * pyarg).
Variable score : loc → offsets → offsets → pyarg → M (list Qc).
(** [scipy.stats.wilcoxon] *)
Variable wilcoxon : list Qc → alternative → exn + WilcoxonResult.

(** The body of the loop, lines 73 to 80. *)
Definition score_pair (seqs ctrls : B) : M (list Qc * list bool) :=
  '(seq_tokens, seq_starts, seq_ends, seq_attention_mask) ← tokenize seqs;
  '(ctrl_tokens, ctrl_starts, ctrl_ends, ctrl_attention_mask) ← tokenize ctrls;
  seq_scores ← score seq_tokens seq_starts seq_ends seq_attention_mask;
  ctrl_scores ← score ctrl_tokens ctrl_starts ctrl_ends ctrl_attention_mask;
  diff_batch ← lift (broadcast1 ValueError Qcminus seq_scores ctrl_scores);
  let correct_batch := map (λ d, bool_decide (0%Qc < d)%Qc) diff_batch in
  mret (diff_batch, correct_batch).

(** The loop, lines 72 to 83. *)
Fixpoint accumulate (dataloader : list (B * B))
    (diffs_lst : list (list Qc)) (corrects_lst : list (list bool))
    : M (list (list Qc) * list (list bool)) :=
  match dataloader with
  | [] => mret (diffs_lst, corrects_lst)
  | (seqs, ctrls) :: rest =>
      '(diff_batch, correct_batch) ← score_pair seqs ctrls;
      accumulate rest (diffs_lst ++ [diff_batch]) (corrects_lst ++ [correct_batch])
  end.

(** After the loop, lines 85 to 100. *)
Definition finalize (diffs_lst : list (list Qc)) (corrects_lst : list (list bool))
    : exn + gmap string npval :=
  diffs ← np_concatenate diffs_lst;
  corrects ← np_concatenate corrects_lst;
  let metrics := <["acc" := np_mean (map b2q corrects)]> (∅ : gmap string npval) in
  wilcox ← wilcoxon diffs Greater;
  let metrics := <["pval" := pvalue wilcox]> metrics in
  let metrics := <["signed_rank_sum" := statistic wilcox]> metrics in
  let metrics := <["mean_diff" := np_mean diffs]> metrics in
  let metrics := <["q05_diff" := np_percentile diffs 5]> metrics in
  let metrics := <["q25_diff" := np_percentile diffs 25]> metrics in
  let metrics := <["median_diff" := np_median diffs]> metrics in
  let metrics := <["q75_diff" := np_percentile diffs 75]> metrics in
  let metrics := <["q95_diff" := np_percentile diffs 95]> metrics in
  mret metrics.

Definition evaluate (dataloader : list (B * B)) : M (gmap string npval) :=
  '(diffs_lst, corrects_lst) ← accumulate dataloader [] [];
  lift (finalize diffs_lst corrects_lst).

End Evaluate.
End PairedEvaluator.

(** ** [single/finetune.py]: one iteration of the training loop of
    [train_finetuned_chromatin_model], lines 216 to 232 *)
Module Finetune.
Section TrainStep.

(** One input sequence of a batch. *)
Context {X : Type}.
(** [model(seq).squeeze(1)]: one prediction per sequence, or an
    exception. *)
Variable model : list X → exn + list Qc.
(** [torch.log] *)
Variable ln : Qc → Qc.

(** [x / d] for a tensor [x] and a Python number [d]: dividing by zero
    raises nothing and gives an infinity or NaN. *)
Definition np_div (x : npval) (d : Qc) : npval :=
  match x with
  | Num q => if decide (d = 0%Qc) then NaN else Num (q / d)
  | NaN => NaN
  end.

(** [torch.log(x)]: a number for [x > 0], where [ln] gives it; [-inf] at 0
    and NaN below. *)
Definition torch_log (x : Qc) : npval :=
  if decide (0%Qc < x)%Qc then Num (ln x) else NaN.

(** [torch.square(t - p)] *)
Definition square_diff (t : npval) (p : Qc) : npval :=
  match t with
  | Num t => Num ((t - p) * (t - p))%Qc
  | NaN => NaN
  end.

(** The entries of a tensor when all of them are numbers. *)
Fixpoint numbers (x : list npval) : option (list Qc) :=
  match x with
  | [] => Some []
  | Num q :: rest => cons q <$> numbers rest
  | NaN :: _ => None
  end.

(** [torch.mean(x, dim=-1)] of a one-dimensional tensor. *)
Definition torch_mean (x : list npval) : npval :=
  match numbers x with
  | Some qs => np_mean qs
  | None => NaN
  end.

(** [log1pMSELoss(log_predicted_counts, true_counts)] *)
Definition log1pMSELoss (log_predicted_counts true_counts : list Qc) : exn + npval :=
  let log_true := map (λ c, torch_log (c + 1%Qc)) true_counts in
  sq ← broadcast1 RuntimeError square_diff log_true log_predicted_counts;
  mret (torch_mean sq).

(** [loss = log1pMSELoss(model(seq).squeeze(1), true_counts) / d;
    loss.backward()].  The state is the list of losses whose gradient has
    been accumulated since the last [optimizer.zero_grad()]. *)
Definition forward_backward (seq : list X) (true_counts : list Qc) (d : Z)
    (grads : list npval) : exn + list npval :=
  log1p_counts ← model seq;
  loss ← log1pMSELoss log1p_counts true_counts;
  mret (grads ++ [np_div loss (Qc_of_Z d)]).

Definition train_step (accumulate : Z) (seq : list X) (true_counts : list Qc)
    (grads : list npval) : exn + list npval :=
  match forward_backward seq true_counts accumulate grads with
  | inl OutOfMemoryError =>
      let split_ind := (length seq / 2)%nat in
      let '(seq1, seq2) := (take split_ind seq, drop split_ind seq) in
      let '(true_counts1, true_counts2) :=
        (take split_ind true_counts, drop split_ind true_counts) in
      grads ← forward_backward seq1 true_counts1 (accumulate * 2) grads;
      forward_backward seq2 true_counts2 (accumulate * 2) grads
  | r => r
  end.

End TrainStep.
End Finetune.

(** ** Predicates used in the statements *)

(** [m] never changes or removes a tensor that is already in the store. *)
Definition preserves {A} (m : M A) : Prop :=
  ∀ st, heap st ⊆ heap (m st).2.

(** Token id [v] occurs in row [r] at column [c] and nowhere else. *)
Definition unique_at (v : Z) (r : list Z) (c : nat) : Prop :=
  r !! c = Some v ∧ ∀ j, r !! j = Some v → j = c.

(** How many times [v] occurs in a row, and in a whole batch. *)
Definition occurrences (v : Z) (r : list Z) : nat :=
  length (filter (λ x, x = v) r).

Definition total_occurrences (v : Z) (rows : list (list Z)) : nat :=
  sum_list (map (occurrences v) rows).

(** The fraction of the entries of [D] that are greater than zero. *)
Definition fraction_positive (D : list Qc) : npval :=
  match D with
  | [] => NaN
  | _ =>
      Num (Qc_of_Z (Z.of_nat (length (filter (λ d, 0%Qc < d)%Qc D)))
           / Qc_of_Z (Z.of_nat (length D)))
  end.

(** *** The statistics the specification names

    Stated on their own, not through the functions of the embedding. *)

(** [s] holds the entries of [D] in ascending order. *)
Definition ascending (D s : list Qc) : Prop :=
  s ≡ₚ D ∧ ∀ i j x y, (i < j)%nat → s !! i = Some x → s !! j = Some y → (x ≤ y)%Qc.

(** [m] is the mean of the [n > 0] entries of [D]: [n] times [m] is their
    sum. *)
Definition is_mean (D : list Qc) (m : Qc) : Prop :=
  D ≠ [] ∧ (Qc_of_Z (Z.of_nat (length D)) * m)%Qc = Qc_sum D.

(** [v] is the [q]-th percentile of [D]: with the entries in ascending
    order and numbered from 0, the position [h = (n - 1) * q / 100] lies
    between the positions [lo] and [lo + 1], and [v] lies between the two
    entries there in the proportion in which [h] does. *)
Definition is_percentile (D : list Qc) (q : Z) (v : Qc) : Prop :=
  ∃ s lo x y,
    ascending D s
    ∧ Z.of_nat lo * 100 ≤ (Z.of_nat (length D) - 1) * q < (Z.of_nat lo + 1) * 100
    ∧ s !! lo = Some x
    ∧ y = default x (s !! S lo)
    ∧ v = (x + (Qc_of_Z ((Z.of_nat (length D) - 1) * q) / Qc_of_Z 100
                - Qc_of_Z (Z.of_nat lo)) * (y - x))%Qc.

(** [v] is the median of [D]: the middle entry in ascending order, or the
    mean of the two middle entries. *)
Definition is_median (D : list Qc) (v : Qc) : Prop :=
  ∃ s, ascending D s
    ∧ (Nat.odd (length D) → s !! (length D / 2)%nat = Some v)
    ∧ (Nat.even (length D) →
       ∃ x y, s !! (length D / 2 - 1)%nat = Some x ∧ s !! (length D / 2)%nat = Some y
              ∧ v = ((x + y) / 2%Qc)%Qc).

(** The names under which [evaluate] reports its metrics. *)
Definition metric_names : list string :=
  ["acc"; "pval"; "signed_rank_sum"; "mean_diff"; "q05_diff"; "q25_diff";
   "median_diff"; "q75_diff"; "q95_diff"].

(** ** Concrete evaluators and inputs

    The token ids are those the evaluator classes of the source declare
    ([DNABERT2Evaluator]: start 1, end 2; [HDEvaluator]: no start, end 1;
    [NTEvaluator]: start 3, no end).  The network is replaced by a
    deterministic stub. *)

(** A stub network: the log-probability of id [v] at any position of row
    [n] is minus [v] minus ten times the sum of the ids of row [n] of the
    input. *)
Definition stub_log_softmax (tokens : list (list Z)) (mask : option (list (list Z)))
    (n t : nat) (v : Z) : Qc :=
  Qc_of_Z (- (v + 10 * foldr Z.add 0 (default [] (tokens !! n)))).

Definition DNABERT2Evaluator : evaluator := Evaluator CPU 4 (Some 1) (Some 2) stub_log_softmax.
Definition HDEvaluator : evaluator := Evaluator CPU 4 None (Some 1) stub_log_softmax.
Definition NTEvaluator : evaluator := Evaluator CPU 2 (Some 3) None stub_log_softmax.

(** A batch of two sequences, [CLS] = 1 first and [SEP] = 2 last or before
    one padding token, with its attention mask. *)
Definition ex_tokens : tensor := Tensor CPU 4 [[1; 5; 6; 2]; [1; 7; 2; 3]].
Definition ex_mask : tensor := Tensor CPU 4 [[1; 1; 1; 1]; [1; 1; 1; 0]].

Definition ex_store : store :=
  Store (<[1%positive := ex_tokens]> (<[2%positive := ex_mask]> ∅)) [].

Definition ex_encoded : gmap string loc :=
  <["input_ids" := 1%positive]> (<["attention_mask" := 2%positive]> ∅).

(** The output of a tokenizer that returns no attention mask. *)
Definition ex_encoded_no_mask : gmap string loc :=
  <["input_ids" := 1%positive]> ∅.

(** A batch whose first row holds the start token twice and whose second
    row does not hold it. *)
Definition ex_store_misaligned : store :=
  Store (<[1%positive := Tensor CPU 3 [[1; 1; 2]; [5; 2; 5]]]>
           (<[2%positive := Tensor CPU 3 [[1; 1; 1]; [1; 1; 1]]]> ∅)) [].

(** A stub tokenizer and a stub scorer for running the paired evaluator:
    a batch is given by its rows of token ids, and the score of a row is a
    tenth of the sum of its ids. *)
Definition stub_tokenize (rows : list (list Z)) : M (loc * offsets * offsets * pyarg) :=
  l ← alloc (Tensor CPU 1 rows);
  mret (l, Scalar 0, PerSeq (row_sums rows), PyNone).

Definition stub_score (tokens : loc) (starts ends : offsets) (attention_mask : pyarg)
    : M (list Qc) :=
  t ← deref tokens;
  mret (map (λ r, Qc_of_Z (foldr Z.add 0%Z r) / Qc_of_Z 10)%Qc (t_rows t)).

(** A stub in the place of [scipy.stats.wilcoxon], for running the
    evaluator on an example.  It is not SciPy's routine: it accepts the
    alternative "greater" only, and reports the sum of the positive
    differences as statistic and 1/2 as p-value. *)
Definition stub_wilcoxon (d : list Qc) (alt : alternative) : exn + WilcoxonResult :=
  match alt with
  | Greater =>
      inr (MkWilcoxonResult (Num (Qc_sum (filter (λ x, 0%Qc < x)%Qc d)))
                            (Num (1%Qc / 2%Qc)%Qc))
  | _ => inl ValueError
  end.

(** Two batches of two pairs whose score differences are 1, -2 and
    1/2, -1/10. *)
Definition ex_dataloader : list (list (list Z) * list (list Z)) :=
  [([[10]; [-5]], [[0]; [15]]); ([[5]; [0]], [[0]; [1]])].

Definition ex_empty_store : store := Store ∅ [].

(** The differences and flags the loop collects from [ex_dataloader]. *)
Definition ex_diffs : list (list Qc) :=
  [[Qc_of_Z 1; Qc_of_Z (-2)]; [Q2Qc (1 # 2); Q2Qc (-1 # 10)]].

Definition ex_corrects : list (list bool) := [[true; false]; [true; false]].

(** The sum of two numpy floats. *)
Definition np_add (x y : npval) : npval :=
  match x, y with
  | Num a, Num b => Num (a + b)
  | _, _ => NaN
  end.

(** A stub network for the training step: it predicts each input as it is
    and runs out of memory on more than two sequences; and a stub for
    [torch.log], [ln x = x - 1]. *)
Definition ex_model (seq : list Z) : exn + list Qc :=
  if decide (length seq ≤ 2)%nat then inr (map Qc_of_Z seq) else inl OutOfMemoryError.

Definition ex_ln (x : Qc) : Qc := (x - 1)%Qc.

(** ** The masked score in closed form *)

(** The batch with column [i] overwritten by the id [v]. *)
Definition mask_column (i : nat) (v : Z) (rows : list (list Z)) : list (list Z) :=
  map (λ r, <[i := v]> r) rows.

(** For every row [n], the sum over the positions [i] of [0 .. T-1] with
    [starts[n] <= i < ends[n]] of the log-probability that the network, run
    on the batch with column [i] masked, gives at position [i] to the id
    [target n i]. *)
Definition masked_sum (self : evaluator) (target : nat → nat → Z) (T : nat)
    (rows : list (list Z)) (mask : option (list (list Z))) (clip_at : nat → nat → bool)
    : list Qc :=
  imap (λ n _,
          Qc_sum (map (λ i, (log_softmax self (mask_column i (mask_token self) rows) mask n i
                               (target n i)
                             * b2q (clip_at n i))%Qc)
                      (seq 0 T)))
       rows.

(** The id the specification scores at position [i] of row [n]: the token
    that was there before masking. *)
Definition original_token (rows : list (list Z)) (n i : nat) : Z :=
  default 0 (rows !! n ≫= (.!! i)).

(** Whether position [i] is inside the boundaries of row [n]. *)
Definition clip_at (ss es : list Z) (n i : nat) : bool :=
  in_range (Z.of_nat i) (default 0 (ss !! n)) (default 0 (es !! n)).

(** * More of the code *)

(** ** Exceptions of the code below

    The exceptions of [exn], and those that only the functions of this
    part raise. *)
Inductive pyexn : Type :=
  | Raised (e : exn)
  | UnboundLocalError
  | IndexError
  | FileExistsError
  | FileNotFoundError
  | ZeroDivisionError.

Global Instance pyexn_eq_dec : EqDecision pyexn.
Proof. solve_decision. Defined.

Global Instance pyexn_ret : MRet (sum pyexn) := λ A a, inr a.
Global Instance pyexn_bind : MBind (sum pyexn) := λ A B f r,
  match r with
  | inr a => f a
  | inl e => inl e
  end.

(** ** [ChromatinEndToEndDataset._copy_if_not_exists], [single/finetune.py]

    The file system is a finite map from paths to contents; the
    directories of the paths are taken to exist. *)
Module Cache.

Abbreviation filesystem := (gmap string (list Byte.byte)).

(** [open(path, "xb")]: exclusive creation. *)
Definition open_xb (path : string) (fs : filesystem) : pyexn + filesystem :=
  match fs !! path with
  | Some _ => inl FileExistsError
  | None => inr (<[path := []]> fs)
  end.

(** [open(path, "rb")] and reading the whole file. *)
Definition open_rb (path : string) (fs : filesystem) : pyexn + list Byte.byte :=
  match fs !! path with
  | Some content => inr content
  | None => inl FileNotFoundError
  end.

(** [_copy_if_not_exists(src, dst)]: the exception it leaves with, if any,
    and the file system it leaves behind.  The destination is opened
    first; what it has created stays when opening the source fails. *)
Definition _copy_if_not_exists (src dst : string) (fs : filesystem)
    : option pyexn * filesystem :=
  match open_xb dst fs with
  | inl FileExistsError => (None, fs)
  | inl e => (Some e, fs)
  | inr fs1 =>
      match open_rb src fs1 with
      | inl FileExistsError => (None, fs1)
      | inl e => (Some e, fs1)
      | inr content => (None, <[dst := content]> fs1)
      end
  end.

End Cache.

(** ** [ChromatinEndToEndDataset]: downsampling by epoch, [single/finetune.py] *)
Module Dataset.
Section Rows.

(** A row of the elements table. *)
Context {Row : Type}.

(** The attributes the methods below read and write.  [elements_df] is
    [None] while the attribute has not been assigned; the ratio is a
    non-negative integer or [None]. *)
Record dataset : Type := MkDataset {
  elements_df_all : list Row;
  downsample_ratio : option nat;
  elements_df : option (list Row)
}.

(** The part of [__init__] that sets these attributes, lines 35 and 64 to
    66, from the table [_load_elements] returned. *)
Definition init (rows : list Row) (ratio : option nat) : dataset :=
  MkDataset rows ratio (match ratio with None => Some rows | Some _ => None end).

(** [df.take_every(n, offset)] for [n >= 1]: the rows at the indices
    [offset], [offset + n], [offset + 2 n], ...; [k] rows are skipped
    before the next one is taken. *)
Fixpoint take_every (n k : nat) (df : list Row) : list Row :=
  match df with
  | [] => []
  | x :: rest =>
      match k with
      | O => x :: take_every n (n - 1) rest
      | S k' => take_every n k' rest
      end
  end.

(** [set_epoch(self, epoch)] *)
Definition set_epoch (self : dataset) (epoch : nat) : pyexn + dataset :=
  match downsample_ratio self with
  | None => inr self
  | Some ratio =>
      if decide (ratio = 0)%nat then inl ZeroDivisionError
      else
        let offset := (epoch mod ratio)%nat in
        inr (MkDataset (elements_df_all self) (downsample_ratio self)
                       (Some (take_every ratio offset (elements_df_all self))))
  end.

(** [__len__(self)] *)
Definition __len__ (self : dataset) : pyexn + nat :=
  match elements_df self with
  | Some df => inr (length df)
  | None => inl (Raised AttributeError)
  end.

(** The rows in use after [set_epoch(epoch)], none if the call raised or
    left the attribute unassigned. *)
Definition rows_at (self : dataset) (epoch : nat) : list Row :=
  match set_epoch self epoch with
  | inr self' => default [] (elements_df self')
  | inl _ => []
  end.

End Rows.
End Dataset.

(** ** [_offsets_to_indices], [single/evaluators.py] *)
Module VariantIndices.

(** [row[start:stop] = v] on a row of a numpy array: the positions of the
    slice that exist are overwritten, the others are ignored. *)
Definition slice_assign {A} (start stop : nat) (v : A) (row : list A) : list A :=
  imap (λ p x, if decide (start ≤ p < stop)%nat then v else x) row.

(** [for j, (start, end) in enumerate(offset): gather_idx[i, start:end] = j],
    from token [j] on, on row [i]. *)
Fixpoint mark_row (j : nat) (offset : list (nat * nat)) (row : list nat) : list nat :=
  match offset with
  | [] => row
  | (start, stop) :: rest => mark_row (S j) rest (slice_assign start stop j row)
  end.

(** [for i, offset in enumerate(offsets): ...], from row [i] on.  Indexing
    a row that [gather_idx] does not have raises [IndexError]. *)
Fixpoint mark_rows (i : nat) (offsets : list (list (nat * nat)))
    (gather_idx : list (list nat)) : pyexn + list (list nat) :=
  match offsets with
  | [] => inr gather_idx
  | offset :: rest =>
      gather_idx ← match offset with
                   | [] => inr gather_idx
                   | _ =>
                       if decide (i < length gather_idx)%nat
                       then inr (alter (mark_row 0 offset) i gather_idx)
                       else inl IndexError
                   end;
      mark_rows (S i) rest gather_idx
  end.

(** [DNABERT2VariantEvaluator._offsets_to_indices(offsets, seqs)], the same
    in [GenaLMVariantEvaluator] and [MistralVariantEvaluator]; [seqs] has
    shape [(shape0, shape1)]. *)
Definition _offsets_to_indices (offsets : list (list (nat * nat))) (shape0 shape1 : nat)
    : pyexn + list (list nat) :=
  mark_rows 0 offsets (replicate shape0 (replicate shape1 0%nat)).

(** [NTVariantEvaluator._offsets_to_indices(offsets, seqs)].  The loop
    variable [i] is read after the loop; it is unbound when the loop has
    not run. *)
Definition nt_offsets_to_indices (shape0 seq_len : nat) : pyexn + list (list nat) :=
  let '(inds, i) :=
    foldl (λ '(inds, _) i, (slice_assign (i * 6) ((i + 1) * 6) (i + 1)%nat inds, Some i))
          (replicate seq_len 0%nat, None) (seq 0 (seq_len / 6)) in
  match i with
  | None => inl UnboundLocalError
  | Some i =>
      let arange := seq (i + 2) (i + seq_len mod 6 + 2 - (i + 2)) in
      let start := ((i + 1) * 6)%nat in
      if decide (length arange = length (drop start inds))
      then inr (replicate shape0 (take start inds ++ arange))
      else inl (Raised ValueError)
  end.

(** [HDProbingVariantEvaluator._offsets_to_indices(offsets, seqs)] *)
Definition hd_offsets_to_indices (shape0 shape1 : nat) : list (list nat) :=
  replicate shape0 [0%nat; shape1].

(** Token [j] of row [offset] spans position [p]. *)
Definition spans (offset : list (nat * nat)) (j p : nat) : Prop :=
  ∃ start stop, offset !! j = Some (start, stop) ∧ (start ≤ p < stop)%nat.

End VariantIndices.

(** ** The other tokenizers of [single/evaluators.py] *)
Module SingleVariants.

(** [VariantLikelihoodEvaluator.tokenize], from the tokenizer's output on;
    [encoded["offset_mapping"]] is handed on as it is. *)
Definition variant_tokenize (self : evaluator) (encoded : gmap string loc)
    : M (loc * offsets * offsets * pyarg * loc) :=
  tokens ← lift (from_option inr (inl KeyError) (encoded !! "input_ids"));
  offset_mapping ← lift (from_option inr (inl KeyError) (encoded !! "offset_mapping"));
  let attention_mask := match encoded !! "attention_mask" with
                        | Some a => PyTensor a
                        | None => PyNone
                        end in
  tk ← deref tokens;
  let starts := match start_token self with
                | Some s => PerSeq (map (Z.add 1) (where_cols s (t_rows tk)))
                | None => PerSeq (replicate (length (t_rows tk)) 0)
                end in
  ends ← match end_token self with
         | Some e => mret (PerSeq (where_cols e (t_rows tk)))
         | None =>
             match attention_mask with
             | PyNone => raise AttributeError
             | PyTensor a => am ← deref a; mret (PerSeq (row_sums (t_rows am)))
             end
         end;
  mret (tokens, starts, ends, attention_mask, offset_mapping).

(** [HDProbingVariantEvaluator.tokenize]: the mask and the ends computed
    from it are both inside the [try]; [ends] may be [None]. *)
Definition hd_probing_tokenize (self : evaluator) (encoded : gmap string loc)
    : M (loc * offsets * option offsets * pyarg * pyarg) :=
  tokens ← lift (from_option inr (inl KeyError) (encoded !! "input_ids"));
  '(attention_mask, ends) ←
    try_except
      (a ← lift (from_option inr (inl KeyError) (encoded !! "attention_mask"));
       am ← deref a;
       mret (PyTensor a, Some (PerSeq (row_sums (t_rows am)))))
      (mret (PyNone, None));
  tk ← deref tokens;
  let starts := match start_token self with
                | Some s => PerSeq (map (Z.add 1) (where_cols s (t_rows tk)))
                | None => PerSeq (replicate (length (t_rows tk)) 0)
                end in
  let ends := match end_token self with
              | Some e => Some (PerSeq (where_cols e (t_rows tk)))
              | None => ends
              end in
  mret (tokens, starts, ends, attention_mask, PyNone).

End SingleVariants.

(** ** [LikelihoodEvaluator.evaluate] and [VariantLikelihoodEvaluator.evaluate]

    Computations that also hold the lines of the output file; a line is
    the value written, before formatting. *)
Definition ST (S E A : Type) : Type := S → (E + A) * S.

Global Instance ST_ret {S E} : MRet (ST S E) | 100 := λ A a s, (inr a, s).
Global Instance ST_bind {S E} : MBind (ST S E) | 100 := λ A B f m s,
  match m s with
  | (inr a, s') => f a s'
  | (inl e, s') => (inl e, s')
  end.

Definition st_raise {S E A} (e : E) : ST S E A := λ s, (inl e, s).

(** A computation on the store, run beside the file. *)
Definition run_store {F A} (m : M A) : ST (store * F) pyexn A := λ '(st, file),
  match m st with
  | (inr a, st') => (inr a, (st', file))
  | (inl e, st') => (inl (Raised e), (st', file))
  end.

(** [f.write(line); f.flush()] *)
Definition file_write {L} (line : L) : ST (store * list L) pyexn unit := λ '(st, file),
  (inr (), (st, file ++ [line])).

(** [open(output_file, "w")]: the file is emptied. *)
Definition file_open_w {L} : ST (store * list L) pyexn unit := λ '(st, file),
  (inr (), (st, [])).

Module SingleEvaluate.
Section Evaluate.

Context {B : Type}.
(** [self.tokenize] and [self.score] as [LikelihoodEvaluator.evaluate]
    calls them, with four values. *)
Variable tokenize : B → M (loc * offsets * offsets * pyarg).
Variable score : loc → offsets → offsets → pyarg → M (list Qc).
(** The same as [VariantLikelihoodEvaluator.evaluate] calls them, with
    five. *)
Variable tokenize5 : B → M (loc * offsets * offsets * pyarg * loc).
Variable score5 : loc → offsets → offsets → pyarg → loc → M (list Qc).

(** [for lhood in lls.flatten(): out_file_obj.write(...)] *)
Fixpoint write_all (lls : list Qc) : ST (store * list Qc) pyexn unit :=
  match lls with
  | [] => mret ()
  | lhood :: rest => file_write lhood;; write_all rest
  end.

(** The loop of [LikelihoodEvaluator.evaluate], lines 76 to 81. *)
Fixpoint evaluate_loop (dataloader : list B) : ST (store * list Qc) pyexn unit :=
  match dataloader with
  | [] => mret ()
  | seqs :: rest =>
      '(tokens, starts, ends, attention_mask) ← run_store (tokenize seqs);
      lls ← run_store (score tokens starts ends attention_mask);
      write_all lls;;
      evaluate_loop rest
  end.

(** [LikelihoodEvaluator.evaluate(self, dataset, output_file)] *)
Definition evaluate (dataloader : list B) : ST (store * list Qc) pyexn unit :=
  file_open_w;; evaluate_loop dataloader.

(** The two lists of likelihoods and, once it has been assigned, [df]. *)
Record variant_locals : Type := MkLocals {
  allele1_likelihoods : list Qc;
  allele2_likelihoods : list Qc;
  df : option (list Qc * list Qc)
}.

(** [for lhood_allele1, lhood_allele2 in zip(...)], lines 96 to 102. *)
Fixpoint write_pairs (pairs : list (Qc * Qc)) (locals : variant_locals)
    : ST (store * list (Qc * Qc)) pyexn variant_locals :=
  match pairs with
  | [] => mret locals
  | (lhood_allele1, lhood_allele2) :: rest =>
      let a1 := allele1_likelihoods locals ++ [lhood_allele1] in
      let a2 := allele2_likelihoods locals ++ [lhood_allele2] in
      file_write (lhood_allele1, lhood_allele2);;
      write_pairs rest (MkLocals a1 a2 (Some (a1, a2)))
  end.

(** The loop of [VariantLikelihoodEvaluator.evaluate], lines 91 to 102. *)
Fixpoint variant_loop (dataloader : list (B * B)) (locals : variant_locals)
    : ST (store * list (Qc * Qc)) pyexn variant_locals :=
  match dataloader with
  | [] => mret locals
  | (allele1, allele2) :: rest =>
      '(tokens1, starts1, ends1, mask1, offsets1) ← run_store (tokenize5 allele1);
      '(tokens2, starts2, ends2, mask2, offsets2) ← run_store (tokenize5 allele2);
      lls_allele1 ← run_store (score5 tokens1 starts1 ends1 mask1 offsets1);
      lls_allele2 ← run_store (score5 tokens2 starts2 ends2 mask2 offsets2);
      locals ← write_pairs (zip lls_allele1 lls_allele2) locals;
      variant_loop rest locals
  end.

(** [VariantLikelihoodEvaluator.evaluate(self, dataset, output_file)]: the
    file is opened for appending, and [df] is returned after the loop. *)
Definition variant_evaluate (dataloader : list (B * B))
    : ST (store * list (Qc * Qc)) pyexn (list Qc * list Qc) :=
  locals ← variant_loop dataloader (MkLocals [] [] None);
  match df locals with
  | Some frame => mret frame
  | None => st_raise UnboundLocalError
  end.

End Evaluate.
End SingleEvaluate.

(** A stub tokenizer and scorer in the five-value form. *)
Definition stub_tokenize5 (rows : list (list Z)) : M (loc * offsets * offsets * pyarg * loc) :=
  l ← alloc (Tensor CPU 1 rows);
  mret (l, Scalar 0, PerSeq (row_sums rows), PyNone, l).

Definition stub_score5 (tokens : loc) (starts ends : offsets) (attention_mask : pyarg)
    (offset_mapping : loc) : M (list Qc) :=
  stub_score tokens starts ends attention_mask.

(** What the stubs score a batch with. *)
Definition stub_scores (rows : list (list Z)) : list Qc :=
  map (λ r, Qc_of_Z (foldr Z.add 0%Z r) / Qc_of_Z 10)%Qc rows.

(** Tokenizing and scoring one batch, as both [evaluate] methods do it. *)
Definition run_batch {B} (tokenize : B → M (loc * offsets * offsets * pyarg))
    (score : loc → offsets → offsets → pyarg → M (list Qc)) (seqs : B) : M (list Qc) :=
  '(tokens, starts, ends, attention_mask) ← tokenize seqs;
  score tokens starts ends attention_mask.

(** The tokenizer returns from every store, and the scorer, from every
    store that still holds what the tokenizer left, returns the scores
    [sc seqs]; neither forgets a tensor. *)
Definition scores_with {B} (tokenize5 : B → M (loc * offsets * offsets * pyarg * loc))
    (score5 : loc → offsets → offsets → pyarg → loc → M (list Qc))
    (sc : B → list Qc) : Prop :=
  ∀ seqs st, ∃ tokens starts ends attention_mask offset_mapping st1,
    tokenize5 seqs st = (inr (tokens, starts, ends, attention_mask, offset_mapping), st1)
    ∧ heap st ⊆ heap st1
    ∧ ∀ st2, heap st1 ⊆ heap st2 →
        ∃ st3, score5 tokens starts ends attention_mask offset_mapping st2
               = (inr (sc seqs), st3)
               ∧ heap st2 ⊆ heap st3.

(** Whatever the store holds, the computation [m] returns [v]. *)
Definition always_returns {A} (m : M A) (v : A) : Prop :=
  ∀ st, ∃ st', m st = (inr v, st').

(** Whatever the store holds, the computation [m] raises [e]. *)
Definition always_raises {A} (m : M A) (e : exn) : Prop :=
  ∀ st, ∃ st', m st = (inl e, st').

(** A stub tokenizer that rejects an empty batch. *)
Definition stub_tokenize_nonempty (rows : list (list Z))
    : M (loc * offsets * offsets * pyarg) :=
  match rows with
  | [] => raise ValueError
  | _ => stub_tokenize rows
  end.

(** The locals of [VariantLikelihoodEvaluator.evaluate] once the pairs
    [pairs] have been written. *)
Definition locals_of (pairs : list (Qc * Qc)) : SingleEvaluate.variant_locals :=
  SingleEvaluate.MkLocals pairs.*1 pairs.*2
    (match pairs with [] => None | _ => Some (pairs.*1, pairs.*2) end).

(** The scores of the two alleles of each batch, zipped as Python's [zip]
    does, batch after batch. *)
Definition pairs_of {B} (sc : B → list Qc) (dataloader : list (B * B)) : list (Qc * Qc) :=
  concat (map (λ '(a1, a2), zip (sc a1) (sc a2)) dataloader).

(** ** Calling [self.score]

    A Python call binds its arguments to the parameters before the body
    runs: too few or too many positional arguments raise [TypeError]. *)

(** The values the [evaluate] methods pass to [self.score]. *)
Inductive pyval : Type :=
  | VTokens (tokens : loc)
  | VOffsets (o : offsets)
  | VArg (a : pyarg).

Module SingleMethods.

(** [MaskedZeroShotScore.score(self, tokens, starts, ends, attention_mask,
    offsets)] of [single/evaluators.py], as a method that is called. *)
Definition MaskedZeroShotScore_score (self : evaluator) (fwd : list pyarg → M ftensor)
    (args : list pyval) : M (list Qc) :=
  match args with
  | [VTokens tokens; VOffsets starts; VOffsets ends; VArg attention_mask; VArg offset_mapping] =>
      Single.MaskedZeroShotScore_score self fwd tokens starts ends attention_mask
        offset_mapping
  | _ => raise TypeError
  end.

(** [CausalZeroShotScore.score(self, tokens, starts, ends, attention_mask)] *)
Definition CausalZeroShotScore_score (self : evaluator) (fwd : list pyarg → M ftensor)
    (args : list pyval) : M (list Qc) :=
  match args with
  | [VTokens tokens; VOffsets starts; VOffsets ends; VArg attention_mask] =>
      Single.CausalZeroShotScore_score self fwd tokens starts ends attention_mask
  | _ => raise TypeError
  end.

(** [self.score(tokens, starts, ends, attention_mask)], line 78. *)
Definition call4 (score : list pyval → M (list Qc))
    (tokens : loc) (starts ends : offsets) (attention_mask : pyarg) : M (list Qc) :=
  score [VTokens tokens; VOffsets starts; VOffsets ends; VArg attention_mask].

(** [self.score(tokens, starts, ends, attention_mask, offsets)], lines 94
    and 95. *)
Definition call5 (score : list pyval → M (list Qc))
    (tokens : loc) (starts ends : offsets) (attention_mask : pyarg) (offset_mapping : loc)
    : M (list Qc) :=
  score [VTokens tokens; VOffsets starts; VOffsets ends; VArg attention_mask;
         VArg (PyTensor offset_mapping)].

End SingleMethods.

(** The computation [m] returns from the store [st]. *)
Definition returns_from {A} (m : M A) (st : store) : Prop :=
  ∃ v st', m st = (inr v, st').

(** ** [single/finetune.py]: the training part of one epoch of
    [train_finetuned_chromatin_model], lines 210 to 238 *)
Module TrainEpoch.
Section Epoch.

(** One input sequence, and the parameters of the model. *)
Context {X P : Type}.
(** [model(seq).squeeze(1)] under the current parameters. *)
Variable model : P → list X → exn + list Qc.
(** [torch.log] *)
Variable ln : Qc → Qc.
(** [optimizer.step()]: the new parameters, from the current ones and the
    losses whose gradients have been accumulated since the last
    [optimizer.zero_grad()]. *)
Variable optimizer_step : P → list npval → P.

Definition raised {A} (r : exn + A) : pyexn + A :=
  match r with
  | inl e => inl (Raised e)
  | inr a => inr a
  end.

(** Lines 213 to 232 for one batch [(seq, track)]:
    [true_counts = track.sum(dim=1)], then the step of [Finetune]. *)
Definition batch_step (accumulate : Z) (params : P) (batch : list X * list (list Qc))
    (grads : list npval) : pyexn + list npval :=
  let '(seq, track) := batch in
  let true_counts := map Qc_sum track in
  raised (Finetune.train_step (model params) ln accumulate seq true_counts grads).

(** The loop of line 211, from the batch of index [i] on. *)
Fixpoint train_loop (accumulate : Z) (i : nat) (train_dataloader : list (list X * list (list Qc)))
    (params : P) (grads : list npval) : pyexn + (P * list npval) :=
  match train_dataloader with
  | [] => inr (params, grads)
  | batch :: rest =>
      grads ← batch_step accumulate params batch grads;
      if decide (accumulate = 0) then inl ZeroDivisionError
      else if decide ((Z.of_nat i + 1) mod accumulate = 0)
      then train_loop accumulate (S i) rest (optimizer_step params grads) []
      else train_loop accumulate (S i) rest params grads
  end.

(** [optimizer.zero_grad()], the loop, and the [optimizer.step()] of line
    238. *)
Definition train_epoch (accumulate : Z) (train_dataloader : list (list X * list (list Qc)))
    (params : P) : pyexn + P :=
  '(params, grads) ← train_loop accumulate 0 train_dataloader params [];
  mret (optimizer_step params grads).

(** *** The epoch group by group

    The gradients of the batches of [group], accumulated under fixed
    parameters, and the optimizer step that uses them. *)
Fixpoint accumulate_group (accumulate : Z) (params : P)
    (group : list (list X * list (list Qc))) (grads : list npval) : pyexn + list npval :=
  match group with
  | [] => inr grads
  | batch :: rest =>
      grads ← batch_step accumulate params batch grads;
      accumulate_group accumulate params rest grads
  end.

Definition group_step (accumulate : Z) (params : P)
    (group : list (list X * list (list Qc))) : pyexn + P :=
  grads ← accumulate_group accumulate params group [];
  mret (optimizer_step params grads).

Fixpoint grouped_steps (accumulate : Z) (params : P)
    (groups : list (list (list X * list (list Qc)))) : pyexn + P :=
  match groups with
  | [] => inr params
  | group :: rest =>
      params ← group_step accumulate params group;
      grouped_steps accumulate params rest
  end.

End Epoch.
End TrainEpoch.

(** A stub model with one parameter, which predicts an input [x] as
    [params * x], and an optimizer that takes the sum of the accumulated
    losses off the parameter. *)
Definition ex_param_model (params : Qc) (seq : list Z) : exn + list Qc :=
  inr (map (λ x, params * Qc_of_Z x)%Qc seq).

Definition ex_optimizer_step (params : Qc) (grads : list npval) : Qc :=
  foldl (λ p g, match g with Num q => (p - q)%Qc | NaN => p end) params grads.

(** Three batches of one sequence each, with its track. *)
Definition ex_batches : list (list Z * list (list Qc)) :=
  [([1], [[1%Qc; 1%Qc]]); ([2], [[0%Qc]]); ([3], [[2%Qc]])].

(** A causal evaluator without start token whose end token is 2. *)
Definition ex_causal_evaluator : evaluator := Evaluator CPU 4 None (Some 2) stub_log_softmax.

(** ** [single/finetune.py]: the validation loss of one epoch, lines 240
    to 280

    The two correlations are computed from the concatenated predictions and
    targets and do not raise; they are left out, the concatenations that
    feed them are not. *)
Module Validation.
Section Validate.

Context {X : Type}.
(** [model(seq).squeeze(1)] in evaluation mode. *)
Variable model : list X → exn + list Qc.
(** [torch.log] *)
Variable ln : Qc → Qc.

Record val_locals : Type := MkVal {
  val_loss : npval;
  val_counts_pred : list (list Qc);
  val_counts_true : list (list Qc)
}.

(** The body of both loops, lines 245 to 255 and 263 to 273. *)
Definition val_batch (batch : list X * list (list Qc)) (s : val_locals) : exn + val_locals :=
  let '(seq, track) := batch in
  let true_counts := map Qc_sum track in
  log1p_counts ← model seq;
  loss ← Finetune.log1pMSELoss ln log1p_counts true_counts;
  mret (MkVal (np_add (val_loss s) loss)
              (val_counts_pred s ++ [log1p_counts])
              (val_counts_true s ++ [true_counts])).

Fixpoint val_loop (dataloader : list (list X * list (list Qc))) (s : val_locals)
    : exn + val_locals :=
  match dataloader with
  | [] => inr s
  | batch :: rest => s ← val_batch batch s; val_loop rest s
  end.

(** [torch.cat(tensors, dim=0)] *)
Definition torch_cat (tensors : list (list Qc)) : exn + list Qc :=
  match tensors with
  | [] => inl RuntimeError
  | _ => inr (concat tensors)
  end.

(** The validation loss, and the predictions and targets that the
    correlations over all regions are computed from. *)
Definition validate (val_pos_dataloader val_neg_dataloader : list (list X * list (list Qc)))
    : pyexn + (npval * list Qc * list Qc) :=
  s ← TrainEpoch.raised (val_loop val_pos_dataloader (MkVal (Num 0%Qc) [] []));
  val_counts_pred_peaks ← TrainEpoch.raised (torch_cat (val_counts_pred s));
  val_counts_true_peaks ← TrainEpoch.raised (torch_cat (val_counts_true s));
  s ← TrainEpoch.raised (val_loop val_neg_dataloader s);
  let n := (length val_pos_dataloader + length val_neg_dataloader)%nat in
  if decide (n = 0%nat) then inl ZeroDivisionError
  else
    let val_loss := Finetune.np_div (val_loss s) (Qc_of_Z (Z.of_nat n)) in
    val_counts_pred ← TrainEpoch.raised (torch_cat (val_counts_pred s));
    val_counts_true ← TrainEpoch.raised (torch_cat (val_counts_true s));
    mret (val_loss, val_counts_pred, val_counts_true).

End Validate.
End Validation.

(** ** [single/finetune.py]: the ranks of [counts_spearman], lines 161 to
    169

    [torch.argsort] is external.  Its contract: the result holds every
    index of the input once, and the values at the indices are in ascending
    order.  Where values are equal the order of their indices is not
    fixed. *)
Definition is_argsort {A} (le : A → A → Prop) (x : list A) (idx : list nat) : Prop :=
  idx ≡ₚ seq 0 (length x)
  ∧ ∀ a b i j vi vj,
      (a < b)%nat → idx !! a = Some i → idx !! b = Some j →
      x !! i = Some vi → x !! j = Some vj → le vi vj.

Module Spearman.
Section Ranks.

(** [Tensor.argsort] on a float tensor and on the integer tensor it
    returns. *)
Variable argsort : list Qc → list nat.
Variable argsort_int : list nat → list nat.

(** [x.argsort().argsort()] *)
Definition ranks (x : list Qc) : list nat := argsort_int (argsort x).

End Ranks.
End Spearman.

(** An argsort by merge sort, for running [ranks]. *)
Definition ex_argsort {A} (le : relation A) `{!RelDecision le} (x : list A) : list nat :=
  (@merge_sort (nat * A) (λ p q, le p.2 q.2) (λ p q, decide_rel le p.2 q.2)
     (imap pair x)).*1.

(** Three predictions, all different. *)
Definition ex_log_preds : list Qc := [Qc_of_Z 3; 1%Qc; 2%Qc].

(** Validation batches of different sizes: two peaks in one batch, one
    other region in another. *)
Definition ex_val_pos : list (list Z * list (list Qc)) :=
  [([1; 2], [[1%Qc; 1%Qc]; [0%Qc]])].

Definition ex_val_neg : list (list Z * list (list Qc)) :=
  [([3], [[2%Qc]])].

(** * Properties *)

(** Closed equations between values that hold rationals are settled by
    running the decision procedure for equality. *)
Ltac by_evaluation := apply (bool_decide_unpack _); vm_compute; exact I.

(** ** The store: what a computation leaves untouched *)

Lemma preserves_ret {A} (a : A) : preserves (mret a).
Proof. by intros st. Qed.

Lemma preserves_raise {A} (e : exn) : preserves (@raise A e).
Proof. by intros st. Qed.

Lemma preserves_lift {A} (r : exn + A) : preserves (lift r).
Proof. by intros st. Qed.

Lemma preserves_bind {A B} (m : M A) (f : A → M B) :
  preserves m → (∀ a, preserves (f a)) → preserves (m ≫= f).
Proof.
  intros Hm Hf st. unfold mbind, M_bind.
  specialize (Hm st). destruct (m st) as [[e|a] st1]; simpl in *; [done|].
  etrans; [exact Hm | apply Hf].
Qed.

Lemma preserves_deref l : preserves (deref l).
Proof. intros st. unfold deref. by destruct (heap st !! l). Qed.

Lemma fresh_lookup_None (h : gmap loc tensor) : h !! fresh (dom h) = None.
Proof. apply not_elem_of_dom, is_fresh. Qed.

Lemma preserves_alloc t : preserves (alloc t).
Proof. intros st. simpl. apply insert_subseteq, fresh_lookup_None. Qed.

Lemma preserves_log_call c : preserves (log_call c).
Proof. by intros st. Qed.

Lemma preserves_tensor_to d l : preserves (tensor_to d l).
Proof.
  apply preserves_bind; [apply preserves_deref|]. intros t.
  case_decide; [apply preserves_ret | apply preserves_alloc].
Qed.

Lemma preserves_try_except {A} (m h : M A) :
  preserves m → preserves h → preserves (try_except m h).
Proof.
  intros Hm Hh st. unfold try_except. specialize (Hm st).
  destruct (m st) as [[e|a] st1]; simpl in *; [|done].
  etrans; [exact Hm | apply Hh].
Qed.

Lemma preserves_run_model self l a : preserves (run_model self l a).
Proof.
  apply preserves_bind; [apply preserves_deref|]. intros tk.
  apply preserves_bind.
  - destruct a; [apply preserves_ret|].
    apply preserves_bind; [apply preserves_deref | intros; apply preserves_ret].
  - intros am. apply preserves_bind; [apply preserves_log_call|].
    intros _. apply preserves_ret.
Qed.

Lemma preserves_paired_model_fwd self args : preserves (PairedControl.model_fwd self args).
Proof.
  unfold PairedControl.model_fwd.
  destruct args as [|[|l] [|a [|]]]; try apply preserves_raise.
  apply preserves_bind; [apply preserves_run_model|]. intros lg.
  apply preserves_bind; [apply preserves_deref | intros; apply preserves_ret].
Qed.

Lemma preserves_single_model_fwd self args : preserves (Single.model_fwd self args).
Proof.
  unfold Single.model_fwd.
  destruct args as [|[|l] [|a [|]]]; try apply preserves_raise.
  apply preserves_bind.
  - apply preserves_try_except; apply preserves_run_model.
  - intros lg. apply preserves_bind; [apply preserves_deref | intros; apply preserves_ret].
Qed.

Lemma preserves_for_range_from {S} (body : nat → S → M S) n :
  (∀ i acc, preserves (body i acc)) →
  ∀ start acc, preserves (for_range_from start n body acc).
Proof.
  intros Hbody. induction n as [|n IH]; intros start acc; simpl.
  - apply preserves_ret.
  - apply preserves_bind; [apply Hbody | intros; apply IH].
Qed.

(** Cloning a tensor and overwriting a column of the clone touches only the
    clone, which is a new tensor. *)
Lemma preserves_clone_setitem {A} l i v (k : loc → M A) :
  (∀ l', preserves (k l')) →
  preserves (l' ← clone l; setitem_col l' i v;; k l').
Proof.
  intros Hk st. unfold clone, setitem_col, deref, alloc, write, mbind, M_bind.
  destruct (heap st !! l) as [t|] eqn:Hl; simpl; [|done].
  rewrite lookup_insert_eq. simpl.
  etrans; [|apply Hk]. simpl. rewrite insert_insert_eq.
  apply insert_subseteq, fresh_lookup_None.
Qed.

Lemma preserves_masked_score self fwd tokens starts ends am :
  (∀ args, preserves (fwd args)) →
  preserves (masked_score self fwd tokens starts ends am).
Proof.
  intros Hfwd. unfold masked_score.
  apply preserves_bind; [apply preserves_tensor_to|]. intros tk.
  apply preserves_bind.
  { destruct am; [apply preserves_raise | apply preserves_tensor_to]. }
  intros a. apply preserves_bind; [apply preserves_deref|]. intros t.
  apply preserves_bind; [|intros; apply preserves_ret].
  apply preserves_for_range_from. intros i acc. unfold masked_score_step.
  apply preserves_bind; [apply preserves_lift|]. intros clip_mask.
  apply preserves_clone_setitem. intros l'.
  apply preserves_bind; [apply Hfwd|]. intros out.
  apply preserves_bind; [apply preserves_lift | intros; apply preserves_lift].
Qed.

(** C9. The masked scorer of either file leaves the caller's token tensor as
    it found it: whatever [tokens] referred to before the call, it refers to
    the same values afterwards, whether the call returns or raises. *)
Theorem masked_score_keeps_tokens self tokens starts ends am om st t :
  heap st !! tokens = Some t →
  heap (PairedControl.MaskedZeroShotScore_score self (PairedControl.model_fwd self)
          tokens starts ends am st).2 !! tokens = Some t
  ∧ heap (Single.MaskedZeroShotScore_score self (Single.model_fwd self)
            tokens starts ends am om st).2 !! tokens = Some t.
Proof.
  intros Ht. split.
  - eapply lookup_weaken; [exact Ht|].
    apply preserves_masked_score, preserves_paired_model_fwd.
  - eapply lookup_weaken; [exact Ht|].
    apply preserves_masked_score, preserves_single_model_fwd.
Qed.

Lemma masked_score_keeps_tokens_witness :
  heap (PairedControl.MaskedZeroShotScore_score DNABERT2Evaluator
          (PairedControl.model_fwd DNABERT2Evaluator)
          1%positive (PerSeq [1; 1]) (PerSeq [3; 2]) (PyTensor 2%positive) ex_store).2
    !! 1%positive = Some ex_tokens
  ∧ heap (Single.MaskedZeroShotScore_score DNABERT2Evaluator
            (Single.model_fwd DNABERT2Evaluator)
            1%positive (PerSeq [1; 1]) (PerSeq [3; 2]) (PyTensor 2%positive) PyNone
            ex_store).2
      !! 1%positive = Some ex_tokens.
Proof.
  apply (masked_score_keeps_tokens DNABERT2Evaluator 1%positive (PerSeq [1; 1])
           (PerSeq [3; 2]) (PyTensor 2%positive) PyNone ex_store ex_tokens).
  reflexivity.
Defined.

(** ** The causal scorer of [paired_control/zero_shot/evaluators.py] *)

Lemma tensor_to_fwd_log d l st : fwd_log (tensor_to d l st).2 = fwd_log st.
Proof.
  unfold tensor_to, deref, mbind, M_bind.
  destruct (heap st !! l) as [t|]; simpl; [|done]. by case_decide.
Qed.

Lemma tensor_to_Some d l st t :
  heap st !! l = Some t → ∃ l' st', tensor_to d l st = (inr l', st').
Proof.
  intros Hl. unfold tensor_to, deref, mbind, M_bind. rewrite Hl. simpl.
  case_decide; eauto.
Qed.

(** C2. [CausalZeroShotScore.score] calls [self.model_fwd(tokens)] with one
    argument, and the [model_fwd] of this file takes two: on every batch the
    call raises [TypeError] before the network is run, so no forward pass is
    made and no score is returned. *)
Theorem paired_causal_score_raises self tokens starts ends am st t :
  heap st !! tokens = Some t →
  let r := PairedControl.CausalZeroShotScore_score self (PairedControl.model_fwd self)
             tokens starts ends am st in
  r.1 = inl TypeError ∧ fwd_log r.2 = fwd_log st.
Proof.
  intros Ht. simpl. unfold PairedControl.CausalZeroShotScore_score.
  unfold mbind at 1. unfold M_bind at 1.
  pose proof (tensor_to_fwd_log (self_device self) tokens st) as Hlog.
  destruct (tensor_to_Some (self_device self) tokens st t Ht) as (l' & st' & Hto).
  rewrite Hto in Hlog |- *. simpl in *.
  unfold mbind, M_bind, raise. simpl. by rewrite Hto.
Qed.

Lemma paired_causal_score_raises_witness :
  let r := PairedControl.CausalZeroShotScore_score HDEvaluator
             (PairedControl.model_fwd HDEvaluator)
             1%positive (Scalar 0) (PerSeq [3; 2]) (PyTensor 2%positive) ex_store in
  r.1 = inl TypeError ∧ fwd_log r.2 = fwd_log ex_store.
Proof.
  apply (paired_causal_score_raises HDEvaluator 1%positive (Scalar 0) (PerSeq [3; 2])
           (PyTensor 2%positive) ex_store ex_tokens).
  reflexivity.
Defined.

(** ** Clip masks *)

Lemma broadcast1_same_length {A B C} err (f : A → B → C) x y :
  length x = length y → broadcast1 err f x y = inr (zip_with f x y).
Proof. intros H. unfold broadcast1. by rewrite decide_True. Qed.

(** The masked scorer's mask at position [i], with one start and one end
    per sequence: entry [n] is 1 exactly when [starts[n] <= i < ends[n]]. *)
Lemma masked_clip_mask_per_seq i ss es :
  length ss = length es →
  clip_and i (PerSeq ss) (PerSeq es) ≫= clip_to = inr (zip_with (in_range i) ss es).
Proof. intros H. simpl. by rewrite broadcast1_same_length. Qed.

(** The same with the scalar start 0 of a tokenizer without start token. *)
Lemma masked_clip_mask_scalar_start i es :
  clip_and i (Scalar 0) (PerSeq es) ≫= clip_to = inr (map (in_range i 0) es).
Proof. done. Qed.

Lemma in_range_spec i s e : in_range i s e = true ↔ s ≤ i < e.
Proof.
  unfold in_range. rewrite andb_true_iff, !bool_decide_eq_true. done.
Qed.

(** The causal scorer's mask for per-sequence offsets: row [n], column [i]
    is 1 exactly when [starts[n] <= i < ends[n]]. *)
Lemma causal_clip_rows_lookup T pairs n i s e :
  pairs !! n = Some (s, e) → (i < T)%nat →
  clip_rows T pairs !! n ≫= (.!! i) = Some (in_range (Z.of_nat i) s e).
Proof.
  intros Hn Hi. unfold clip_rows. rewrite list_lookup_fmap, Hn. simpl.
  rewrite list_lookup_fmap, lookup_seqZ_lt by lia. simpl. by rewrite Z.add_0_l.
Qed.

(** C3. With the scalar start 0 that [HFZeroShotEvaluator.tokenize] returns
    when there is no start token, the causal scorer builds no mask at all:
    [zip(starts, ends)] raises, whatever forward method is plugged in. *)
Theorem paired_causal_scalar_start_raises self fwd tokens ends am st :
  ∃ e, (PairedControl.CausalZeroShotScore_score self fwd tokens (Scalar 0) ends am st).1
       = inl e.
Proof.
  unfold PairedControl.CausalZeroShotScore_score, mbind, M_bind.
  destruct (tensor_to _ _ _) as [[e|l] st1]; [by eexists|].
  destruct (fwd _ _) as [[e|lls] st2]; [by eexists|].
  simpl. by eexists.
Qed.

(** When the forward method does return, the exception is the [TypeError]
    of [zip]. *)
Lemma paired_causal_scalar_start_TypeError self fwd tokens z ends am st l st1 lls st2 :
  tensor_to (self_device self) tokens st = (inr l, st1) →
  fwd [PyTensor l] st1 = (inr lls, st2) →
  PairedControl.CausalZeroShotScore_score self fwd tokens (Scalar z) ends am st
  = (inl TypeError, st2).
Proof.
  intros H1 H2. unfold PairedControl.CausalZeroShotScore_score, mbind, M_bind.
  by rewrite H1, H2.
Qed.

Lemma paired_tokenize_no_start_token self enc st tk starts ends am st' :
  start_token self = None →
  PairedControl.tokenize self enc st = (inr (tk, starts, ends, am), st') →
  starts = Scalar 0.
Proof.
  intros Hs. unfold PairedControl.tokenize, mbind, M_bind, lift. rewrite Hs.
  destruct (enc !! "input_ids"); simpl; [|done].
  destruct (enc !! "attention_mask"); simpl; [|done].
  destruct (deref _ _) as [[?|?] ?]; [done|].
  destruct (end_token self).
  - simpl. by intros [= <- <- <- <-].
  - destruct (deref _ _) as [[?|?] ?]; simpl; [done|]. by intros [= <- <- <- <-].
Qed.

(** ** [torch.where(tokens == v)[1]] *)

Lemma where_row_length_gen v (h : nat → nat) r :
  length (omap (λ '(j, x), if decide (x = v) then Some (Z.of_nat j) else None)
               (imap (λ j x, (h j, x)) r))
  = occurrences v r.
Proof.
  revert h. induction r as [|x r IH]; intros h; [done|].
  unfold occurrences in *. rewrite filter_cons. simpl.
  specialize (IH (h ∘ S)).
  case_decide; simpl; by rewrite <- IH.
Qed.

Lemma where_row_length v r : length (where_row v r) = occurrences v r.
Proof. apply (where_row_length_gen v id). Qed.

Lemma where_cols_length v rows :
  length (where_cols v rows) = total_occurrences v rows.
Proof.
  unfold where_cols, total_occurrences.
  induction rows as [|r rows IH]; [done|].
  simpl. by rewrite length_app, where_row_length, IH.
Qed.

Lemma occurrences_0 v r : (∀ j, r !! j ≠ Some v) → occurrences v r = 0%nat.
Proof.
  intros H. unfold occurrences.
  induction r as [|x r IH]; [done|].
  rewrite filter_cons. case_decide as Hx.
  - by destruct (H 0%nat); simpl; rewrite Hx.
  - apply IH. intros j. apply (H (S j)).
Qed.

Lemma where_row_unique_gen v (h : nat → nat) r c :
  unique_at v r c →
  omap (λ '(j, x), if decide (x = v) then Some (Z.of_nat j) else None)
       (imap (λ j x, (h j, x)) r)
  = [Z.of_nat (h c)].
Proof.
  revert h c. induction r as [|x r IH]; intros h c [Hc Huniq]; [done|].
  simpl. destruct c as [|c]; simpl in Hc.
  - injection Hc as ->. rewrite decide_True by done. f_equal.
    apply nil_length_inv. rewrite (where_row_length_gen v (h ∘ S)).
    apply occurrences_0. intros j Hj. by specialize (Huniq (S j) Hj).
  - rewrite decide_False.
    + apply (IH (h ∘ S)). split; [done|].
      intros j Hj. specialize (Huniq (S j) Hj). lia.
    + intros ->. by specialize (Huniq 0%nat eq_refl).
Qed.

Lemma where_cols_unique v rows cols :
  Forall2 (unique_at v) rows cols →
  where_cols v rows = map Z.of_nat cols.
Proof.
  unfold where_cols. induction 1 as [|r c rows cols Hrc _ IH]; [done|].
  simpl. rewrite IH.
  change (where_row v r ++ map Z.of_nat cols) with
    (omap (λ '(j, x), if decide (x = v) then Some (Z.of_nat j) else None)
          (imap (λ j x, (id j, x)) r) ++ map Z.of_nat cols).
  by rewrite (where_row_unique_gen v id r c Hrc).
Qed.

(** ** Tokenization *)

(** C10 as the code has it.  Given the token ids and the attention mask,
    [tokenize] of either file returns without raising, whatever tokens are
    configured.  With a start token id, [starts] has one entry per
    occurrence of it in the whole batch, and when it occurs exactly once in
    every row, one entry per row, the column of the token plus one; without
    one, [starts] is the scalar 0 in [paired_control] and one 0 per row in
    [single].  With an end token id, [ends] has one entry per occurrence in
    the whole batch, and when it occurs exactly once in every row, one entry
    per row, its column; without one, [ends] is the number of attended
    positions of every row. *)
Theorem tokenize_boundaries self enc st tokens a t am :
  enc !! "input_ids" = Some tokens → enc !! "attention_mask" = Some a →
  heap st !! tokens = Some t → heap st !! a = Some am →
  ∃ paired_starts single_starts ends,
    PairedControl.tokenize self enc st
      = (inr (tokens, paired_starts, ends, PyTensor a), st)
    ∧ Single.tokenize self enc st
      = (inr (tokens, single_starts, ends, PyTensor a), st)
    ∧ match start_token self with
      | Some s =>
          ∃ starts,
            paired_starts = PerSeq starts ∧ single_starts = PerSeq starts
            ∧ length starts = total_occurrences s (t_rows t)
            ∧ (∀ cols, Forall2 (unique_at s) (t_rows t) cols →
                 starts = map (λ c, Z.of_nat c + 1) cols)
      | None =>
          paired_starts = Scalar 0
          ∧ single_starts = PerSeq (replicate (length (t_rows t)) 0)
      end
    ∧ match end_token self with
      | Some e =>
          ∃ es,
            ends = PerSeq es
            ∧ length es = total_occurrences e (t_rows t)
            ∧ (∀ cols, Forall2 (unique_at e) (t_rows t) cols → es = map Z.of_nat cols)
      | None => ends = PerSeq (row_sums (t_rows am))
      end.
Proof.
  intros Hin Ham Ht Ha.
  exists (match start_token self with
          | Some s => PerSeq (map (Z.add 1) (where_cols s (t_rows t)))
          | None => Scalar 0
          end),
         (match start_token self with
          | Some s => PerSeq (map (Z.add 1) (where_cols s (t_rows t)))
          | None => PerSeq (replicate (length (t_rows t)) 0)
          end),
         (match end_token self with
          | Some e => PerSeq (where_cols e (t_rows t))
          | None => PerSeq (row_sums (t_rows am))
          end).
  split; [|split; [|split]].
  - unfold PairedControl.tokenize, mbind, M_bind, lift, deref.
    rewrite Hin, Ham. simpl. rewrite Ht.
    destruct (end_token self) as [e|]; simpl; [reflexivity|]. by rewrite Ha.
  - unfold Single.tokenize, mbind, M_bind, lift, deref.
    rewrite Hin, Ham. simpl. rewrite Ht.
    destruct (end_token self) as [e|]; simpl; [reflexivity|]. by rewrite Ha.
  - destruct (start_token self) as [s|]; [|done].
    eexists. split; [reflexivity|]. split; [reflexivity|]. split.
    + by rewrite length_map, where_cols_length.
    + intros cols Hcols. rewrite (where_cols_unique _ _ _ Hcols), map_map.
      apply map_ext. intros c. lia.
  - destruct (end_token self) as [e|]; [|done].
    eexists. split; [reflexivity|]. split; [apply where_cols_length|].
    intros cols Hcols. apply (where_cols_unique _ _ _ Hcols).
Qed.

(** The three configurations of the source on the example batch:
    [DNABERT2Evaluator] with both tokens, [NTEvaluator] without end token
    and [HDEvaluator] without start token. *)
Lemma tokenize_boundaries_witness :
  (∃ ends,
     PairedControl.tokenize DNABERT2Evaluator ex_encoded ex_store
       = (inr (1%positive, PerSeq [1; 1], ends, PyTensor 2%positive), ex_store)
     ∧ Single.tokenize DNABERT2Evaluator ex_encoded ex_store
       = (inr (1%positive, PerSeq [1; 1], ends, PyTensor 2%positive), ex_store)
     ∧ ends = PerSeq [3; 2])
  ∧ (∃ starts,
       PairedControl.tokenize NTEvaluator ex_encoded ex_store
         = (inr (1%positive, starts, PerSeq [4; 3], PyTensor 2%positive), ex_store)
       ∧ Single.tokenize NTEvaluator ex_encoded ex_store
         = (inr (1%positive, starts, PerSeq [4; 3], PyTensor 2%positive), ex_store)
       ∧ starts = PerSeq [4])
  ∧ (∃ ends,
       PairedControl.tokenize HDEvaluator ex_encoded ex_store
         = (inr (1%positive, Scalar 0, ends, PyTensor 2%positive), ex_store)
       ∧ Single.tokenize HDEvaluator ex_encoded ex_store
         = (inr (1%positive, PerSeq [0; 0], ends, PyTensor 2%positive), ex_store)
       ∧ ends = PerSeq [0; 0]).
Proof.
  assert (Forall2 (unique_at 1) (t_rows ex_tokens) [0%nat; 0%nat]) as H1.
  { constructor; [|constructor; [|constructor]];
      (split; [reflexivity|]; intros [|[|[|[|j]]]] Hj; by simplify_eq/=). }
  assert (Forall2 (unique_at 2) (t_rows ex_tokens) [3%nat; 2%nat]) as H2.
  { constructor; [|constructor; [|constructor]];
      (split; [reflexivity|]; intros [|[|[|[|j]]]] Hj; by simplify_eq/=). }
  split; [|split].
  - destruct (tokenize_boundaries DNABERT2Evaluator ex_encoded ex_store 1%positive
                2%positive ex_tokens ex_mask)
      as (ps & ss & ends & Hp & Hs & (starts & -> & -> & _ & Hstarts) & (es & -> & _ & Hes));
      [reflexivity..|].
    rewrite (Hstarts _ H1) in Hp, Hs. rewrite (Hes _ H2) in Hp, Hs.
    exists (PerSeq [3; 2]). by rewrite Hp, Hs.
  - destruct (tokenize_boundaries NTEvaluator ex_encoded ex_store 1%positive
                2%positive ex_tokens ex_mask)
      as (ps & ss & ends & Hp & Hs & (starts & -> & -> & Hlen & _) & ->);
      [reflexivity..|].
    exists (PerSeq starts). rewrite Hp, Hs. split; [done|]. split; [done|].
    by injection Hp as <-.
  - destruct (tokenize_boundaries HDEvaluator ex_encoded ex_store 1%positive
                2%positive ex_tokens ex_mask)
      as (ps & ss & ends & Hp & Hs & (-> & ->) & (es & -> & _ & Hes));
      [reflexivity..|].
    rewrite (Hes _ H1) in Hp, Hs. exists (PerSeq [0; 0]). by rewrite Hp, Hs.
Defined.

(** C10, the counterexample.  The first row holds the start token twice,
    the second row not at all, and still [starts] has as many entries as the
    batch has rows: a row without the token, or with two, does not make the
    length differ from the batch size. *)
Lemma tokenize_misaligned_same_length :
  occurrences 1 [5; 2; 5] = 0%nat
  ∧ occurrences 1 [1; 1; 2] = 2%nat
  ∧ PairedControl.tokenize DNABERT2Evaluator ex_encoded ex_store_misaligned
    = (inr (1%positive, PerSeq [1; 2], PerSeq [2; 1], PyTensor 2%positive),
       ex_store_misaligned)
  ∧ Single.tokenize DNABERT2Evaluator ex_encoded ex_store_misaligned
    = (inr (1%positive, PerSeq [1; 2], PerSeq [2; 1], PyTensor 2%positive),
       ex_store_misaligned)
  ∧ ¬ (length [1; 2] ≠ length [[1; 1; 2]; [5; 2; 5]]).
Proof. repeat split; vm_compute; congruence. Qed.

(** C4.  When the tokenizer's output has no attention mask:
    [HFZeroShotEvaluator.tokenize] raises [KeyError];
    [LikelihoodEvaluator.tokenize] raises [AttributeError] if no end token
    is configured; and if one is configured it returns [None] for the mask,
    on which the masked scorer raises [AttributeError]. *)
Theorem missing_attention_mask_raises self enc st tokens t :
  enc !! "attention_mask" = None →
  enc !! "input_ids" = Some tokens →
  heap st !! tokens = Some t →
  (PairedControl.tokenize self enc st).1 = inl KeyError
  ∧ (end_token self = None → (Single.tokenize self enc st).1 = inl AttributeError)
  ∧ (∀ e, end_token self = Some e →
       ∃ starts ends,
         Single.tokenize self enc st = (inr (tokens, starts, ends, PyNone), st)
         ∧ ∀ fwd om,
             (Single.MaskedZeroShotScore_score self fwd tokens starts ends PyNone om st).1
             = inl AttributeError).
Proof.
  intros Ham Hin Ht. repeat split.
  - unfold PairedControl.tokenize, mbind, M_bind, lift. by rewrite Hin, Ham.
  - intros He. unfold Single.tokenize, mbind, M_bind, lift, deref.
    by rewrite Hin, Ham, He; simpl; rewrite Ht.
  - intros e He. eexists _, _. split.
    + unfold Single.tokenize, mbind, M_bind, lift, deref.
      by rewrite Hin, Ham, He; simpl; rewrite Ht.
    + intros fwd om. unfold Single.MaskedZeroShotScore_score, masked_score.
      unfold mbind at 1. unfold M_bind at 1.
      destruct (tensor_to_Some (self_device self) tokens st t Ht) as (l' & st' & Hto).
      by rewrite Hto.
Qed.

Lemma missing_attention_mask_raises_witness :
  (PairedControl.tokenize DNABERT2Evaluator ex_encoded_no_mask ex_store).1 = inl KeyError
  ∧ (Single.tokenize NTEvaluator ex_encoded_no_mask ex_store).1 = inl AttributeError
  ∧ ∃ starts ends,
      Single.tokenize DNABERT2Evaluator ex_encoded_no_mask ex_store
        = (inr (1%positive, starts, ends, PyNone), ex_store)
      ∧ ∀ fwd om,
          (Single.MaskedZeroShotScore_score DNABERT2Evaluator fwd 1%positive
             starts ends PyNone om ex_store).1
          = inl AttributeError.
Proof.
  destruct (missing_attention_mask_raises DNABERT2Evaluator ex_encoded_no_mask ex_store
              1%positive ex_tokens) as (Hpaired & _ & Hmasked); [reflexivity..|].
  destruct (missing_attention_mask_raises NTEvaluator ex_encoded_no_mask ex_store
              1%positive ex_tokens) as (_ & Hnoend & _); [reflexivity..|].
  split; [exact Hpaired|]. split; [apply Hnoend; reflexivity|].
  apply (Hmasked 2). reflexivity.
Defined.

(** The causal scorer of [single/evaluators.py] has no such call on the
    mask: with an end token configured and no attention mask, tokenization
    and scoring both return. *)
Lemma single_causal_tolerates_missing_mask :
  (Single.CausalZeroShotScore_score HDEvaluator (Single.model_fwd HDEvaluator)
     1%positive (PerSeq [0; 0]) (PerSeq [3; 2]) PyNone ex_store).1
  = inr [Qc_of_Z (-432); Qc_of_Z (-268)].
Proof. by_evaluation. Qed.

(** ** Rational arithmetic *)

Lemma Qc_of_Z_plus a b : Qc_of_Z (a + b) = (Qc_of_Z a + Qc_of_Z b)%Qc.
Proof.
  apply Qc_is_canon. simpl. rewrite Qred_correct. by rewrite inject_Z_plus.
Qed.

Lemma Qc_of_Z_0 : Qc_of_Z 0 = 0%Qc.
Proof. by apply Qc_is_canon. Qed.

Lemma Qc_of_Z_1 : Qc_of_Z 1 = 1%Qc.
Proof. by apply Qc_is_canon. Qed.

Lemma Qc_of_Z_S n : Qc_of_Z (Z.of_nat (S n)) = (1%Qc + Qc_of_Z (Z.of_nat n))%Qc.
Proof. rewrite <- Qc_of_Z_1, <- Qc_of_Z_plus. f_equal. lia. Qed.

Lemma Qc_of_Z_nonzero z : z ≠ 0 → Qc_of_Z z ≠ 0%Qc.
Proof.
  intros Hz H. apply (f_equal this) in H. simpl in H.
  injection H as H. lia.
Qed.

Lemma Qc_of_Z_mult a b : Qc_of_Z (a * b) = (Qc_of_Z a * Qc_of_Z b)%Qc.
Proof.
  apply Qc_is_canon. simpl. rewrite Qred_correct. by rewrite inject_Z_mult.
Qed.

Lemma Qc_sum_app l1 l2 : Qc_sum (l1 ++ l2) = (Qc_sum l1 + Qc_sum l2)%Qc.
Proof.
  unfold Qc_sum. induction l1 as [|x l1 IH]; simpl.
  - by rewrite Qcplus_0_l.
  - by rewrite IH, Qcplus_assoc.
Qed.

Lemma Qc_sum_b2q_positive D :
  Qc_sum (map b2q (map (λ d, bool_decide (0%Qc < d)%Qc) D))
  = Qc_of_Z (Z.of_nat (length (filter (λ d, 0%Qc < d)%Qc D))).
Proof.
  induction D as [|d D IH]; [by apply Qc_is_canon|].
  rewrite filter_cons. simpl. fold (Qc_sum (map b2q (map (λ d, bool_decide (0%Qc < d)%Qc) D))).
  rewrite IH. case_decide as Hd.
  - rewrite bool_decide_eq_true_2 by done. simpl length. by rewrite Qc_of_Z_S.
  - rewrite bool_decide_eq_false_2 by done. simpl. apply Qcplus_0_l.
Qed.

(** The mean of the correctness flags is the fraction of positive
    differences. *)
Lemma np_mean_corrects D :
  np_mean (map b2q (map (λ d, bool_decide (0%Qc < d)%Qc) D)) = fraction_positive D.
Proof.
  destruct D as [|d D]; [done|].
  unfold np_mean, fraction_positive.
  rewrite Qc_sum_b2q_positive, !length_map. done.
Qed.

(** ** Sorting and order statistics *)

Lemma concat_perm {A} (l1 l2 : list (list A)) : l1 ≡ₚ l2 → concat l1 ≡ₚ concat l2.
Proof.
  induction 1 as [|x l1 l2 _ IH|x y l|l1 l2 l3 _ IH1 _ IH2]; simpl.
  - done.
  - by rewrite IH.
  - rewrite !(assoc_L (++)). by rewrite (Permutation_app_comm y x).
  - by rewrite IH1.
Qed.

Lemma StronglySorted_lookup_lt {A} (R : relation A) (l : list A) :
  StronglySorted R l →
  ∀ i j x y, (i < j)%nat → l !! i = Some x → l !! j = Some y → R x y.
Proof.
  induction 1 as [|a l _ IH Hall]; intros i j x y Hij Hi Hj; [done|].
  destruct j as [|j]; [lia|]. destruct i as [|i].
  - simpl in Hi, Hj. injection Hi as <-.
    rewrite Forall_lookup in Hall. by apply (Hall j).
  - apply (IH i j); [lia | done..].
Qed.

Lemma ascending_np_sort D : ascending D (np_sort D).
Proof.
  unfold ascending, np_sort. split; [apply merge_sort_Permutation|].
  apply StronglySorted_lookup_lt, (StronglySorted_merge_sort Qcle).
Qed.

Lemma np_mean_is_mean D :
  D ≠ [] → ∃ m, np_mean D = Num m ∧ is_mean D m.
Proof.
  intros HD. destruct D as [|d D]; [done|]. eexists. split; [reflexivity|].
  split; [done|].
  pose proof (Qc_of_Z_nonzero (Z.of_nat (length (d :: D))) ltac:(simpl; lia)) as Hn.
  field. exact Hn.
Qed.

Lemma np_percentile_is_percentile D q :
  D ≠ [] → 0 ≤ q ≤ 100 → ∃ v, np_percentile D q = Num v ∧ is_percentile D q v.
Proof.
  intros HD Hq. destruct D as [|d D]; [done|].
  set (D' := d :: D) in *. destruct (ascending_np_sort D') as [Hperm Hsorted].
  set (h := (Z.of_nat (length D') - 1) * q).
  assert (0 ≤ h ≤ (Z.of_nat (length D') - 1) * 100) as Hh.
  { subst h D'. simpl length. nia. }
  set (lo := Z.to_nat (h `div` 100)).
  assert (Z.of_nat lo = h `div` 100) as Hlo.
  { subst lo. apply Z2Nat.id. apply Z.div_pos; lia. }
  assert (Z.of_nat lo * 100 ≤ h < (Z.of_nat lo + 1) * 100) as Hbounds.
  { rewrite Hlo. pose proof (Z.div_mod h 100 ltac:(lia)).
    pose proof (Z.mod_pos_bound h 100 ltac:(lia)). lia. }
  assert (lo < length (np_sort D'))%nat as Hlt.
  { rewrite (Permutation_length Hperm). lia. }
  destruct (lookup_lt_is_Some_2 _ _ Hlt) as [x Hx].
  exists (x + Qc_of_Z (h `mod` 100) / Qc_of_Z 100 * (default x (np_sort D' !! S lo) - x))%Qc.
  split.
  - unfold np_percentile. subst D'. cbv zeta. fold h. fold lo.
    change (np_sort (d :: D)) with (np_sort (d :: D)). by rewrite Hx.
  - exists (np_sort D'), lo, x, (default x (np_sort D' !! S lo)).
    split; [by split|]. split; [exact Hbounds|]. split; [exact Hx|]. split; [done|].
    fold h. f_equal. f_equal.
    rewrite Hlo. rewrite (Z.div_mod h 100) at 2 by lia.
    rewrite Qc_of_Z_plus, Qc_of_Z_mult.
    pose proof (Qc_of_Z_nonzero 100 ltac:(lia)) as H100.
    field. exact H100.
Qed.

Lemma np_median_is_median D :
  D ≠ [] → ∃ v, np_median D = Num v ∧ is_median D v.
Proof.
  intros HD. destruct D as [|d D]; [done|].
  set (D' := d :: D) in *. destruct (ascending_np_sort D') as [Hperm Hsorted].
  assert (0 < length D')%nat as Hpos by (subst D'; simpl; lia).
  assert (length D' / 2 < length (np_sort D'))%nat as Hhi.
  { rewrite (Permutation_length Hperm). apply Nat.div_lt; lia. }
  destruct (lookup_lt_is_Some_2 _ _ Hhi) as [y Hy].
  assert (length D' / 2 - 1 < length (np_sort D'))%nat as Hlow by lia.
  destruct (lookup_lt_is_Some_2 _ _ Hlow) as [x Hx].
  destruct (Nat.even (length D')) eqn:Heven.
  - exists ((x + y) / 2%Qc)%Qc. split.
    + unfold np_median. subst D'. cbv zeta. rewrite Heven.
      change (length (d :: D)) with (length (d :: D)). by rewrite Hx, Hy.
    + exists (np_sort D'). split; [by split|]. split.
      * rewrite <- Nat.negb_even, Heven. done.
      * intros _. by exists x, y.
  - exists y. split.
    + unfold np_median. subst D'. cbv zeta. rewrite Heven. by rewrite Hy.
    + exists (np_sort D'). split; [by split|]. split; [done|].
      rewrite Heven. done.
Qed.

(** The worked example of the specification: the order statistics of
    1, 2, ..., 10 given in another order. *)
Example percentile_example :
  let D := map Qc_of_Z [3; 1; 2; 10; 9; 8; 4; 5; 6; 7] in
  np_median D = Num (Q2Qc (11 # 2))
  ∧ np_percentile D 5 = Num (Q2Qc (29 # 20))
  ∧ np_percentile D 95 = Num (Q2Qc (191 # 20)).
Proof. repeat split; by_evaluation. Qed.

(** ** The paired evaluator *)

Section PairedEvaluatorFacts.
Import PairedEvaluator.
Context {B : Type}.
Variable tokenize : B → M (loc * offsets * offsets * pyarg).
Variable score : loc → offsets → offsets → pyarg → M (list Qc).

Lemma score_pair_corrects seqs ctrls st d c st' :
  score_pair tokenize score seqs ctrls st = (inr (d, c), st') →
  c = map (λ x, bool_decide (0%Qc < x)%Qc) d.
Proof.
  unfold score_pair, mbind, M_bind, lift, mret, M_ret.
  intros H. repeat case_match; simplify_eq. done.
Qed.

(** The loop keeps one array of differences and one array of flags per
    batch, and every flag says whether its difference is positive. *)
Lemma accumulate_corrects dataloader : ∀ ds cs st ds' cs' st',
  accumulate tokenize score dataloader ds cs st = (inr (ds', cs'), st') →
  cs = map (map (λ x, bool_decide (0%Qc < x)%Qc)) ds →
  cs' = map (map (λ x, bool_decide (0%Qc < x)%Qc)) ds'
  ∧ length ds' = (length ds + length dataloader)%nat.
Proof.
  induction dataloader as [|[seqs ctrls] rest IH]; intros ds cs st ds' cs' st' H Hcs.
  - simpl in H. injection H as <- <- <-. split; [done | simpl; lia].
  - simpl in H. unfold mbind, M_bind in H.
    destruct (score_pair _ _ _ _ _) as [[e|[d c]] st1] eqn:Hpair; [done|].
    apply score_pair_corrects in Hpair. apply IH in H.
    + destruct H as [-> ->]. split; [done|]. rewrite length_app. simpl. lia.
    + subst. by rewrite map_app.
Qed.

End PairedEvaluatorFacts.

Lemma concat_map_map {A C} (f : A → C) (l : list (list A)) :
  concat (map (map f) l) = map f (concat l).
Proof.
  induction l as [|x l IH]; [done|]. simpl. by rewrite IH, map_app.
Qed.

Lemma metrics_dom (v1 v2 v3 v4 v5 v6 v7 v8 v9 : npval) :
  dom (<["q95_diff" := v9]> (<["q75_diff" := v8]> (<["median_diff" := v7]>
        (<["q25_diff" := v6]> (<["q05_diff" := v5]> (<["mean_diff" := v4]>
        (<["signed_rank_sum" := v3]> (<["pval" := v2]>
        (<["acc" := v1]> (∅ : gmap string npval))))))))))
  = list_to_set metric_names.
Proof. rewrite !dom_insert_L. unfold metric_names. set_solver. Qed.

(** C6 as the code has it.  With no batch at all [evaluate] raises
    [ValueError]: there is nothing to concatenate.  With at least one
    batch, an exception of the signed-rank routine leaves [evaluate]; and
    when the routine returns and there is at least one difference,
    [evaluate] returns a mapping with exactly the nine metric names, in
    which [acc] is the fraction of the differences greater than zero,
    [pval] and [signed_rank_sum] are the two fields of
    [wilcoxon(D, alternative="greater")], and the others are the mean, the
    5th, 25th, 75th and 95th percentiles and the median of [D]. *)
Theorem evaluate_metrics {B} (tokenize : B → M (loc * offsets * offsets * pyarg))
    score wilcoxon dataloader st :
  (dataloader = [] →
     PairedEvaluator.evaluate tokenize score wilcoxon dataloader st = (inl ValueError, st))
  ∧ ∀ diffs_lst corrects_lst st',
      dataloader ≠ [] →
      PairedEvaluator.accumulate tokenize score dataloader [] [] st
        = (inr (diffs_lst, corrects_lst), st') →
      let D := concat diffs_lst in
      (∀ e, wilcoxon D Greater = inl e →
            PairedEvaluator.evaluate tokenize score wilcoxon dataloader st = (inl e, st'))
      ∧ (∀ w, wilcoxon D Greater = inr w → D ≠ [] →
           ∃ metrics mean q05 q25 median q75 q95,
             PairedEvaluator.evaluate tokenize score wilcoxon dataloader st
               = (inr metrics, st')
             ∧ dom metrics = list_to_set metric_names
             ∧ metrics !! "acc" = Some (fraction_positive D)
             ∧ metrics !! "pval" = Some (pvalue w)
             ∧ metrics !! "signed_rank_sum" = Some (statistic w)
             ∧ (metrics !! "mean_diff" = Some (Num mean) ∧ is_mean D mean)
             ∧ (metrics !! "q05_diff" = Some (Num q05) ∧ is_percentile D 5 q05)
             ∧ (metrics !! "q25_diff" = Some (Num q25) ∧ is_percentile D 25 q25)
             ∧ (metrics !! "median_diff" = Some (Num median) ∧ is_median D median)
             ∧ (metrics !! "q75_diff" = Some (Num q75) ∧ is_percentile D 75 q75)
             ∧ (metrics !! "q95_diff" = Some (Num q95) ∧ is_percentile D 95 q95)).
Proof.
  split.
  { intros ->. reflexivity. }
  intros diffs_lst corrects_lst st' Hne Hacc D.
  destruct (accumulate_corrects tokenize score dataloader [] [] st _ _ _ Hacc eq_refl)
    as [Hcs Hlen].
  destruct diffs_lst as [|d0 ds]; [destruct dataloader; [done | simpl in Hlen; lia]|].
  destruct corrects_lst as [|c0 cs]; [done|].
  split.
  { intros e He. unfold PairedEvaluator.evaluate, mbind, M_bind. rewrite Hacc.
    unfold lift, PairedEvaluator.finalize, np_concatenate, mbind, exn_bind.
    fold D. by rewrite He. }
  intros w Hw HD.
  destruct (np_mean_is_mean D HD) as (mean & Emean & Hmean).
  destruct (np_percentile_is_percentile D 5 HD ltac:(lia)) as (q05 & E05 & H05).
  destruct (np_percentile_is_percentile D 25 HD ltac:(lia)) as (q25 & E25 & H25).
  destruct (np_median_is_median D HD) as (median & Emed & Hmed).
  destruct (np_percentile_is_percentile D 75 HD ltac:(lia)) as (q75 & E75 & H75).
  destruct (np_percentile_is_percentile D 95 HD ltac:(lia)) as (q95 & E95 & H95).
  assert (PairedEvaluator.finalize wilcoxon (d0 :: ds) (c0 :: cs)
          = inr (<["q95_diff" := Num q95]> (<["q75_diff" := Num q75]>
                (<["median_diff" := Num median]> (<["q25_diff" := Num q25]>
                (<["q05_diff" := Num q05]> (<["mean_diff" := Num mean]>
                (<["signed_rank_sum" := statistic w]> (<["pval" := pvalue w]>
                (<["acc" := fraction_positive D]> ∅)))))))))) as Hfin.
  { rewrite <- (np_mean_corrects D). unfold D. rewrite <- concat_map_map, <- Hcs.
    unfold PairedEvaluator.finalize, np_concatenate, mbind, exn_bind.
    fold D. rewrite Hw. cbn [mret exn_ret]. fold D.
    by rewrite Emean, E05, E25, Emed, E75, E95. }
  eexists _, mean, q05, q25, median, q75, q95. split.
  { unfold PairedEvaluator.evaluate, mbind, M_bind. rewrite Hacc.
    unfold lift. by rewrite Hfin. }
  split; [apply metrics_dom|].
  repeat split; first [by simplify_map_eq | done | apply Hmean | apply H05 | apply H25
                      | apply Hmed | apply H75 | apply H95].
Qed.

(** On the example of the specification, the differences 1, -2, 1/2 and
    -1/10 collected in two batches: the nine entries. *)
Lemma evaluate_metrics_witness :
  ∃ metrics,
    (PairedEvaluator.evaluate stub_tokenize stub_score stub_wilcoxon
       ex_dataloader ex_empty_store).1 = inr metrics
    ∧ dom metrics = list_to_set metric_names
    ∧ metrics !! "acc" = Some (Num (Q2Qc (1 # 2)))
    ∧ metrics !! "pval" = Some (Num (Q2Qc (1 # 2)))
    ∧ metrics !! "signed_rank_sum" = Some (Num (Q2Qc (3 # 2)))
    ∧ (metrics !! "mean_diff" = Some (Num (Q2Qc (-3 # 20)))
       ∧ is_mean (concat ex_diffs) (Q2Qc (-3 # 20)))
    ∧ (metrics !! "q05_diff" = Some (Num (Q2Qc (-343 # 200)))
       ∧ is_percentile (concat ex_diffs) 5 (Q2Qc (-343 # 200)))
    ∧ (metrics !! "q25_diff" = Some (Num (Q2Qc (-23 # 40)))
       ∧ is_percentile (concat ex_diffs) 25 (Q2Qc (-23 # 40)))
    ∧ (metrics !! "median_diff" = Some (Num (Q2Qc (1 # 5)))
       ∧ is_median (concat ex_diffs) (Q2Qc (1 # 5)))
    ∧ (metrics !! "q75_diff" = Some (Num (Q2Qc (5 # 8)))
       ∧ is_percentile (concat ex_diffs) 75 (Q2Qc (5 # 8)))
    ∧ (metrics !! "q95_diff" = Some (Num (Q2Qc (37 # 40)))
       ∧ is_percentile (concat ex_diffs) 95 (Q2Qc (37 # 40))).
Proof.
  destruct (evaluate_metrics stub_tokenize stub_score stub_wilcoxon ex_dataloader
              ex_empty_store) as [_ Hbatches].
  destruct (Hbatches ex_diffs ex_corrects
              (PairedEvaluator.accumulate stub_tokenize stub_score ex_dataloader [] []
                 ex_empty_store).2) as [_ Hret].
  { discriminate. }
  { by_evaluation. }
  destruct (Hret (MkWilcoxonResult (Num (Q2Qc (3 # 2))) (Num (Q2Qc (1 # 2)))))
    as (metrics & mean & q05 & q25 & median & q75 & q95 & Hev & Hdom & Hacc & Hp & Hs
        & [Hm Hmean] & [H5 H05] & [H25 H25'] & [Hmd Hmed] & [H75 H75'] & [H95 H95']).
  { by_evaluation. }
  { discriminate. }
  assert ((PairedEvaluator.evaluate stub_tokenize stub_score stub_wilcoxon
             ex_dataloader ex_empty_store).1
          = inr (<["q95_diff" := Num (Q2Qc (37 # 40))]>
                (<["q75_diff" := Num (Q2Qc (5 # 8))]>
                (<["median_diff" := Num (Q2Qc (1 # 5))]>
                (<["q25_diff" := Num (Q2Qc (-23 # 40))]>
                (<["q05_diff" := Num (Q2Qc (-343 # 200))]>
                (<["mean_diff" := Num (Q2Qc (-3 # 20))]>
                (<["signed_rank_sum" := Num (Q2Qc (3 # 2))]>
                (<["pval" := Num (Q2Qc (1 # 2))]>
                (<["acc" := Num (Q2Qc (1 # 2))]> ∅)))))))))) as Hval by by_evaluation.
  rewrite Hev in Hval. simpl in Hval. injection Hval as Hval.
  assert (mean = Q2Qc (-3 # 20) ∧ q05 = Q2Qc (-343 # 200) ∧ q25 = Q2Qc (-23 # 40)
          ∧ median = Q2Qc (1 # 5) ∧ q75 = Q2Qc (5 # 8) ∧ q95 = Q2Qc (37 # 40))
    as (-> & -> & -> & -> & -> & ->).
  { rewrite Hval in Hm, H5, H25, Hmd, H75, H95.
    repeat split; [clear -Hm | clear -H5 | clear -H25 | clear -Hmd | clear -H75 | clear -H95];
      simplify_map_eq; done. }
  exists metrics. rewrite Hev. split; [done|]. split; [exact Hdom|].
  split. { rewrite Hacc. f_equal. by_evaluation. }
  split. { exact Hp. }
  split. { exact Hs. }
  split. { split; [exact Hm | exact Hmean]. }
  split. { split; [exact H5 | exact H05]. }
  split. { split; [exact H25 | exact H25']. }
  split. { split; [exact Hmd | exact Hmed]. }
  split. { split; [exact H75 | exact H75']. }
  split; [exact H95 | exact H95'].
Defined.

(** C6, the counterexample.  An evaluator whose dataset is empty collects
    no difference: [evaluate] returns no mapping, it raises [ValueError],
    before the signed-rank routine is called. *)
Lemma evaluate_without_batches_raises :
  (PairedEvaluator.evaluate stub_tokenize stub_score stub_wilcoxon [] ex_empty_store).1
  = inl ValueError.
Proof. reflexivity. Qed.

(** The example of the specification: of the differences 1, -2, 1/2 and
    -1/10 one half is positive; a zero difference does not count as
    positive. *)
Example accuracy_example :
  fraction_positive (concat ex_diffs) = Num (Q2Qc (1 # 2))
  ∧ fraction_positive [0%Qc; Qc_of_Z 3] = Num (Q2Qc (1 # 2)).
Proof. split; by_evaluation. Qed.

(** ** The training step of [train_finetuned_chromatin_model] *)

Section TrainStepFacts.
Import Finetune.
Context {X : Type}.
Variable model : list X → exn + list Qc.
Variable ln : Qc → Qc.

Lemma numbers_Num (qs : list Qc) : numbers (map Num qs) = Some qs.
Proof. induction qs as [|q qs IH]; [done|]. simpl. by rewrite IH. Qed.

(** The loss when every count is above -1: the mean of the squared
    differences. *)
Lemma log1pMSELoss_numbers p tc :
  length p = length tc → Forall (λ c, (Qc_of_Z (-1) < c)%Qc) tc →
  log1pMSELoss ln p tc
  = inr (np_mean (zip_with (λ t p, (t - p) * (t - p))%Qc
                           (map (λ c, ln (c + 1%Qc)) tc) p)).
Proof.
  intros Hlen Hall. unfold log1pMSELoss.
  rewrite broadcast1_same_length by (by rewrite length_map).
  cbn [mbind exn_bind mret exn_ret]. f_equal. unfold torch_mean.
  assert (zip_with square_diff (map (λ c, torch_log ln (c + 1%Qc)) tc) p
          = map Num (zip_with (λ t p, (t - p) * (t - p))%Qc
                              (map (λ c, ln (c + 1%Qc)) tc) p)) as ->.
  { clear Hlen. revert p. induction Hall as [|c tc Hc _ IH]; intros [|x p]; try done.
    simpl. rewrite IH. unfold torch_log at 1. rewrite decide_True; [done|].
    replace 0%Qc with (Qc_of_Z (-1) + 1%Qc)%Qc by by_evaluation.
    by apply Qcplus_lt_mono_r. }
  by rewrite numbers_Num.
Qed.





End TrainStepFacts.




(** ** The masked scorer in closed form *)

Lemma imap_zip_with {A B C D} (g : B → C → D) (f1 : nat → A → B) (f2 : nat → A → C) l :
  zip_with g (imap f1 l) (imap f2 l) = imap (λ n x, g (f1 n x) (f2 n x)) l.
Proof.
  revert f1 f2. induction l as [|x l IH]; intros f1 f2; [done|].
  simpl. f_equal. apply IH.
Qed.

Lemma list_as_imap {A B} (d : B) (v : list B) (l : list A) :
  length v = length l → v = imap (λ n _, default d (v !! n)) l.
Proof.
  revert v. induction l as [|x l IH]; intros [|y v] H; try done.
  simpl. f_equal. apply IH. simpl in H. lia.
Qed.

Lemma imap_const_replicate {A B} (c : B) (l : list A) :
  imap (λ _ _, c) l = replicate (length l) c.
Proof. induction l as [|x l IH]; [done|]. simpl. f_equal. exact IH. Qed.

Section MaskedLoop.
Variable self : evaluator.
Variables tokens' a' : loc.
Variables tk' am' : tensor.
Variables starts ends : offsets.
Variable cm : nat → list bool.

Hypothesis Hwf : tensor_wf tk'.
Hypothesis Hclip : ∀ i, (i < t_cols tk')%nat →
  clip_and (Z.of_nat i) starts ends ≫= clip_to = inr (cm i)
  ∧ length (cm i) = length (t_rows tk').

(** The entry the loop writes at row [n], position [i]. *)
Let val (n i : nat) : Qc :=
  (log_softmax self (mask_column i (mask_token self) (t_rows tk')) (Some (t_rows am')) n i
     (mask_token self)
   * b2q (default false (cm i !! n)))%Qc.

(** [lls] after the turns for the positions below [k]. *)
Let lls_at (k : nat) : list (list Qc) :=
  imap (λ n _, map (val n) (seq 0 k) ++ replicate (t_cols tk' - k) 0%Qc) (t_rows tk').

Lemma masked_column k (lg : logits) d :
  (k < t_cols tk')%nat →
  column k (f_rows (neg_cross_entropy lg
     (Tensor d (t_cols tk') (mask_column k (mask_token self) (t_rows tk')))))
  = imap (λ n _, lg n k (mask_token self)) (t_rows tk').
Proof.
  intros Hk. unfold column, neg_cross_entropy, mask_column. simpl.
  rewrite imap_fmap.
  change (map ?f (imap ?g ?l)) with (f <$> imap g l). rewrite fmap_imap.
  apply imap_ext. intros n r Hr. simpl.
  rewrite list_lookup_imap, list_lookup_insert_eq; [done|].
  unfold tensor_wf in Hwf. rewrite Forall_lookup in Hwf.
  rewrite (Hwf n r Hr). done.
Qed.

Lemma masked_step_pure k d :
  (k < t_cols tk')%nat →
  broadcast1 RuntimeError (λ x b, (x * b2q b)%Qc)
    (column k (f_rows (neg_cross_entropy
       (log_softmax self (mask_column k (mask_token self) (t_rows tk')) (Some (t_rows am')))
       (Tensor d (t_cols tk') (mask_column k (mask_token self) (t_rows tk'))))))
    (cm k)
  ≫= (λ col, set_column k col (lls_at k))
  = inr (lls_at (S k)).
Proof.
  intros Hk. destruct (Hclip k Hk) as [_ Hclen].
  rewrite masked_column by done.
  rewrite broadcast1_same_length by (by rewrite length_imap).
  rewrite (list_as_imap false (cm k) (t_rows tk') Hclen) at 1.
  rewrite imap_zip_with. simpl. unfold set_column.
  rewrite decide_True by (unfold lls_at; by rewrite !length_imap).
  f_equal. unfold lls_at. rewrite imap_zip_with.
  apply imap_ext. intros n r _. cbv beta.
  rewrite insert_app_r_alt by (rewrite length_map, length_seq; lia).
  rewrite length_map, length_seq, Nat.sub_diag.
  replace (t_cols tk' - k)%nat with (S (t_cols tk' - S k)) by lia.
  rewrite seq_S, map_app. simpl. by rewrite <- (assoc_L (++)).
Qed.

Lemma masked_score_step_spec k st :
  (k < t_cols tk')%nat →
  heap st !! tokens' = Some tk' → heap st !! a' = Some am' →
  ∃ st',
    masked_score_step self (PairedControl.model_fwd self) tokens' a' starts ends k (lls_at k) st
      = (inr (lls_at (S k)), st')
    ∧ heap st' !! tokens' = Some tk' ∧ heap st' !! a' = Some am'
    ∧ fwd_log st' = fwd_log st
        ++ [FwdCall (mask_column k (mask_token self) (t_rows tk')) (Some (t_rows am'))].
Proof.
  intros Hk Htk Ham. destruct (Hclip k Hk) as [Hc Hclen].
  assert (fresh (dom (heap st)) ≠ a') as Hfa.
  { intros <-. by rewrite fresh_lookup_None in Ham. }
  assert (fresh (dom (heap st)) ≠ tokens') as Hft.
  { intros <-. by rewrite fresh_lookup_None in Htk. }
  pose proof (masked_step_pure k (t_device tk') Hk) as Hpure.
  unfold masked_score_step. unfold mbind at 1. unfold M_bind at 1. unfold lift at 1.
  rewrite Hc.
  unfold clone, setitem_col, deref, alloc, write, PairedControl.model_fwd, run_model,
    log_call, deref, mbind, M_bind, mret, M_ret, lift.
  rewrite Htk. simpl. rewrite lookup_insert_eq. simpl. rewrite lookup_insert_eq. simpl.
  rewrite insert_insert_eq, (lookup_insert_ne _ _ a') by done. rewrite Ham. simpl.
  rewrite lookup_insert_eq. simpl.
  unfold mbind, exn_bind in Hpure.
  destruct (broadcast1 _ _ _ _) as [e|col]; [done|].
  rewrite Hpure. eexists. split; [reflexivity|]. simpl.
  by rewrite !lookup_insert_ne.
Qed.

Lemma masked_loop_spec n : ∀ k st,
  (k + n = t_cols tk')%nat →
  heap st !! tokens' = Some tk' → heap st !! a' = Some am' →
  ∃ st',
    for_range_from k n
      (masked_score_step self (PairedControl.model_fwd self) tokens' a' starts ends)
      (lls_at k) st
      = (inr (lls_at (t_cols tk')), st')
    ∧ fwd_log st' = fwd_log st
        ++ map (λ i, FwdCall (mask_column i (mask_token self) (t_rows tk'))
                             (Some (t_rows am')))
               (seq k n).
Proof.
  induction n as [|n IH]; intros k st Hkn Htk Ham.
  - simpl. replace (t_cols tk') with k by lia. eexists. split; [done|].
    by rewrite app_nil_r.
  - simpl.
    destruct (masked_score_step_spec k st) as (st1 & Hstep & Htk1 & Ham1 & Hlog1);
      [lia | done | done |].
    destruct (IH (S k) st1) as (st' & Hloop & Hlog); [lia | done | done |].
    exists st'. unfold mbind, M_bind. rewrite Hstep. split; [done|].
    by rewrite Hlog, Hlog1, <- (assoc_L (++)).
Qed.

Lemma lls_at_sums :
  map Qc_sum (lls_at (t_cols tk'))
  = imap (λ n _, Qc_sum (map (val n) (seq 0 (t_cols tk')))) (t_rows tk').
Proof.
  unfold lls_at. change (map ?f (imap ?g ?l)) with (f <$> imap g l).
  rewrite fmap_imap. apply imap_ext. intros n r _. simpl.
  by rewrite Nat.sub_diag, app_nil_r.
Qed.

Lemma lls_at_0 :
  lls_at 0 = replicate (length (t_rows tk')) (replicate (t_cols tk') 0%Qc).
Proof.
  unfold lls_at. simpl. rewrite Nat.sub_0_r. apply imap_const_replicate.
Qed.

End MaskedLoop.

Lemma tensor_to_spec d l st t :
  heap st !! l = Some t →
  ∃ l' st' t',
    tensor_to d l st = (inr l', st')
    ∧ heap st ⊆ heap st' ∧ fwd_log st' = fwd_log st
    ∧ heap st' !! l' = Some t' ∧ t_rows t' = t_rows t ∧ t_cols t' = t_cols t.
Proof.
  intros Hl. unfold tensor_to, deref, mbind, M_bind. rewrite Hl. simpl.
  case_decide.
  - exists l, st, t. done.
  - eexists _, _, _. split; [reflexivity|]. simpl.
    split; [apply insert_subseteq, fresh_lookup_None|].
    split; [done|]. by rewrite lookup_insert_eq.
Qed.

(** What [MaskedZeroShotScore.score] computes.  For a rectangular batch, an
    attention mask, and offsets for which the mask expression has one entry
    per row at every position ([cm i] at position [i]), the call returns; it
    runs the network once per position [i], on the batch with column [i]
    overwritten by the mask token id; and the score of row [n] is the sum
    over the positions inside the boundaries of the log-probability the
    network gives, at the masked position, to the mask token id itself:
    the cross-entropy is taken against the masked batch. *)
Lemma masked_score_computes self tokens a tk am starts ends cm st :
  heap st !! tokens = Some tk → heap st !! a = Some am → tensor_wf tk →
  (∀ i, (i < t_cols tk)%nat →
        clip_and (Z.of_nat i) starts ends ≫= clip_to = inr (cm i)
        ∧ length (cm i) = length (t_rows tk)) →
  let r := masked_score self (PairedControl.model_fwd self) tokens starts ends
             (PyTensor a) st in
  r.1 = inr (masked_sum self (λ _ _, mask_token self) (t_cols tk) (t_rows tk)
               (Some (t_rows am)) (λ n i, default false (cm i !! n)))
  ∧ fwd_log r.2
    = fwd_log st ++ map (λ i, FwdCall (mask_column i (mask_token self) (t_rows tk))
                                      (Some (t_rows am)))
                        (seq 0 (t_cols tk)).
Proof.
  intros Htk Ham Hwf Hclip. simpl.
  destruct (tensor_to_spec (self_device self) tokens st tk Htk)
    as (tokens' & st1 & tk' & Hto1 & Hsub1 & Hlog1 & Htk' & Hrows & Hcols).
  destruct (tensor_to_spec (self_device self) a st1 am (lookup_weaken _ _ _ _ Ham Hsub1))
    as (a' & st2 & am' & Hto2 & Hsub2 & Hlog2 & Ham' & Hrows' & _).
  pose proof (lookup_weaken _ _ _ _ Htk' Hsub2) as Htk2.
  assert (tensor_wf tk') as Hwf' by (unfold tensor_wf; by rewrite Hrows, Hcols).
  assert (∀ i, (i < t_cols tk')%nat →
            clip_and (Z.of_nat i) starts ends ≫= clip_to = inr (cm i)
            ∧ length (cm i) = length (t_rows tk')) as Hclip'.
  { intros i Hi. rewrite Hrows. apply Hclip. by rewrite <- Hcols. }
  destruct (masked_loop_spec self tokens' a' tk' am' starts ends cm Hwf' Hclip'
              (t_cols tk') 0%nat st2) as (st3 & Hloop & Hlog3); [lia | done | done |].
  unfold masked_score, mbind, M_bind, for_range, deref. rewrite Hto1, Hto2, Htk2.
  rewrite <- (lls_at_0 self tk' am' cm), Hloop. simpl. split.
  - rewrite (lls_at_sums self tk' am' cm). unfold masked_sum.
    by rewrite Hrows, Hrows', Hcols.
  - by rewrite Hlog3, Hlog2, Hlog1, Hrows, Hrows', Hcols.
Qed.

(** With one start and one end per row. *)
Lemma masked_score_per_seq self tokens a tk am ss es st :
  heap st !! tokens = Some tk → heap st !! a = Some am → tensor_wf tk →
  length ss = length (t_rows tk) → length es = length (t_rows tk) →
  let r := PairedControl.MaskedZeroShotScore_score self (PairedControl.model_fwd self)
             tokens (PerSeq ss) (PerSeq es) (PyTensor a) st in
  r.1 = inr (masked_sum self (λ _ _, mask_token self) (t_cols tk) (t_rows tk)
               (Some (t_rows am)) (clip_at ss es))
  ∧ fwd_log r.2
    = fwd_log st ++ map (λ i, FwdCall (mask_column i (mask_token self) (t_rows tk))
                                      (Some (t_rows am)))
                        (seq 0 (t_cols tk)).
Proof.
  intros Htk Ham Hwf Hss Hes.
  destruct (masked_score_computes self tokens a tk am (PerSeq ss) (PerSeq es)
              (λ i, zip_with (in_range (Z.of_nat i)) ss es) st Htk Ham Hwf) as [Hr Hlog].
  { intros i _. split; [apply masked_clip_mask_per_seq; congruence|].
    rewrite length_zip_with. lia. }
  unfold PairedControl.MaskedZeroShotScore_score. split; [|exact Hlog].
  rewrite Hr. f_equal. unfold masked_sum. apply imap_ext. intros n r Hn. simpl.
  f_equal. apply map_ext. intros i. do 2 f_equal. unfold clip_at.
  apply lookup_lt_Some in Hn.
  destruct (lookup_lt_is_Some_2 ss n ltac:(lia)) as [s Hs].
  destruct (lookup_lt_is_Some_2 es n ltac:(lia)) as [e He].
  by rewrite lookup_zip_with, Hs, He.
Qed.

(** C1.  On the example batch the masked scorer makes four forward passes,
    one per position, and returns for each row the sum, over the positions
    inside its boundaries, of the log-probability of the mask token id 4 at
    the masked position (-258 and -104 with the stub network); the sum of
    the log-probabilities of the tokens that were masked, which the
    specification asks for, is -261 and -107. *)
Theorem masked_score_scores_mask_token :
  let r := PairedControl.MaskedZeroShotScore_score DNABERT2Evaluator
             (PairedControl.model_fwd DNABERT2Evaluator)
             1%positive (PerSeq [1; 1]) (PerSeq [3; 2]) (PyTensor 2%positive) ex_store in
  r.1 = inr (masked_sum DNABERT2Evaluator (λ _ _, 4) 4 (t_rows ex_tokens)
               (Some (t_rows ex_mask)) (clip_at [1; 1] [3; 2]))
  ∧ r.1 = inr [Qc_of_Z (-258); Qc_of_Z (-104)]
  ∧ masked_sum DNABERT2Evaluator (original_token (t_rows ex_tokens)) 4 (t_rows ex_tokens)
      (Some (t_rows ex_mask)) (clip_at [1; 1] [3; 2])
    = [Qc_of_Z (-261); Qc_of_Z (-107)]
  ∧ fwd_log r.2
    = map (λ i, FwdCall (mask_column i 4 (t_rows ex_tokens)) (Some (t_rows ex_mask)))
          [0; 1; 2; 3]%nat.
Proof.
  destruct (masked_score_per_seq DNABERT2Evaluator 1%positive 2%positive ex_tokens ex_mask
              [1; 1] [3; 2] ex_store) as [Hr Hlog]; try reflexivity.
  { repeat constructor. }
  cbv zeta. split; [exact Hr|]. split; [by_evaluation|]. split; [by_evaluation|].
  exact Hlog.
Qed.

(** ** The causal scorer of [single/evaluators.py] in closed form *)

Lemma zip_with_imap_seqZ {A B C} (g : B → bool → C) (h : Z → bool) (l : list A) :
  ∀ (f : nat → A → B) (k : Z),
  zip_with g (imap f l) (map h (seqZ k (Z.of_nat (length l))))
  = imap (λ i x, g (f i x) (h (k + Z.of_nat i))) l.
Proof.
  induction l as [|x l IH]; intros f k; [done|].
  rewrite seqZ_cons by (simpl; lia). simpl.
  rewrite Z.add_0_r. f_equal.
  replace (Z.pred (Z.of_nat (S (length l)))) with (Z.of_nat (length l)) by lia.
  rewrite (IH (f ∘ S) (Z.succ k)). apply imap_ext. intros i y _. simpl.
  do 2 f_equal. lia.
Qed.

Lemma zip_as_imap {A} (ss es : list Z) (l : list A) :
  length ss = length l → length es = length l →
  zip ss es = imap (λ n _, (default 0 (ss !! n), default 0 (es !! n))) l.
Proof.
  revert ss es. induction l as [|x l IH]; intros [|s ss] [|e es] Hs He; try done.
  simpl. f_equal. apply IH; simpl in *; lia.
Qed.

Lemma mul_clip_per_seq (lg : logits) tk ss es :
  tensor_wf tk → t_rows tk ≠ [] →
  length ss = length (t_rows tk) → length es = length (t_rows tk) →
  mul_clip (neg_cross_entropy lg tk) (clip_rows (t_cols tk) (zip ss es))
  = inr (imap (λ n row, imap (λ i v, (lg n i v * b2q (clip_at ss es n i))%Qc) row)
              (t_rows tk)).
Proof.
  intros Hwf Hne Hss Hes.
  rewrite (zip_as_imap ss es (t_rows tk) Hss Hes).
  unfold mul_clip, clip_rows, neg_cross_entropy. cbn [f_rows f_cols].
  change (map ?f (imap ?g ?l)) with (f <$> imap g l). rewrite fmap_imap.
  destruct (imap _ (t_rows tk)) as [|c0 cs] eqn:Hc.
  { apply (f_equal length) in Hc. rewrite length_imap in Hc.
    destruct (t_rows tk); [done | simpl in Hc; lia]. }
  rewrite <- Hc. clear Hc c0 cs.
  rewrite broadcast1_same_length by (by rewrite !length_imap).
  f_equal. rewrite imap_zip_with.
  apply imap_ext. intros n row Hn. simpl.
  unfold tensor_wf in Hwf. rewrite Forall_lookup in Hwf.
  rewrite <- (Hwf n row Hn), zip_with_imap_seqZ.
  apply imap_ext. intros i v _. simpl. by rewrite Z.add_0_l.
Qed.

(** What [CausalZeroShotScore.score] of [single/evaluators.py] computes with
    the [model_fwd] of that file: one forward pass, on the tokens as they
    are, and for row [n] the sum over the positions inside its boundaries of
    the log-probability given to the token at that position. *)
Lemma single_causal_score_computes self tokens a tk am ss es st :
  heap st !! tokens = Some tk → heap st !! a = Some am → tensor_wf tk →
  t_rows tk ≠ [] →
  length ss = length (t_rows tk) → length es = length (t_rows tk) →
  let r := Single.CausalZeroShotScore_score self (Single.model_fwd self)
             tokens (PerSeq ss) (PerSeq es) (PyTensor a) st in
  r.1 = inr (imap (λ n row,
                     Qc_sum (imap (λ i v,
                                     (log_softmax self (t_rows tk) (Some (t_rows am)) n i v
                                      * b2q (clip_at ss es n i))%Qc)
                                  row))
                  (t_rows tk))
  ∧ fwd_log r.2 = fwd_log st ++ [FwdCall (t_rows tk) (Some (t_rows am))].
Proof.
  intros Htk Ham Hwf Hne Hss Hes.
  destruct (tensor_to_spec (self_device self) tokens st tk Htk)
    as (tokens' & st1 & tk' & Hto1 & Hsub1 & Hlog1 & Htk' & Hrows & Hcols).
  pose proof (lookup_weaken _ _ _ _ Ham Hsub1) as Ham1.
  assert (tensor_wf tk') as Hwf' by (unfold tensor_wf; by rewrite Hrows, Hcols).
  pose proof (mul_clip_per_seq (log_softmax self (t_rows tk) (Some (t_rows am))) tk' ss es
                Hwf') as Hmul.
  rewrite Hrows in Hmul. specialize (Hmul Hne Hss Hes).
  assert (Single.CausalZeroShotScore_score self (Single.model_fwd self)
            tokens (PerSeq ss) (PerSeq es) (PyTensor a) st
          = (inr (map Qc_sum
                    (imap (λ n row,
                             imap (λ i v,
                                     (log_softmax self (t_rows tk) (Some (t_rows am)) n i v
                                      * b2q (clip_at ss es n i))%Qc) row)
                          (t_rows tk))),
             Store (heap st1) (fwd_log st ++ [FwdCall (t_rows tk) (Some (t_rows am))])))
    as Hrun.
  { unfold Single.CausalZeroShotScore_score. unfold mbind at 1. unfold M_bind at 1.
    rewrite Hto1.
    unfold Single.model_fwd, try_except, run_model, log_call, deref, mbind, M_bind,
      mret, M_ret, lift.
    rewrite Htk', Ham1. simpl. rewrite Htk'. simpl. rewrite Hlog1, Hrows.
    cbn [f_cols neg_cross_entropy] in Hmul |- *. by rewrite Hmul. }
  cbv zeta. rewrite Hrun. simpl. split; [|done]. f_equal.
  change (map ?f (imap ?g ?l)) with (f <$> imap g l). by rewrite fmap_imap.
Qed.

(** The masked scorer with the scalar start 0 and one end per row: the
    comparison broadcasts, and row [n] is clipped to [0 <= i < ends[n]]. *)
Lemma masked_score_scalar_start self tokens a tk am es st :
  heap st !! tokens = Some tk → heap st !! a = Some am → tensor_wf tk →
  length es = length (t_rows tk) →
  let r := PairedControl.MaskedZeroShotScore_score self (PairedControl.model_fwd self)
             tokens (Scalar 0) (PerSeq es) (PyTensor a) st in
  r.1 = inr (masked_sum self (λ _ _, mask_token self) (t_cols tk) (t_rows tk)
               (Some (t_rows am))
               (λ n i, in_range (Z.of_nat i) 0 (default 0 (es !! n))))
  ∧ fwd_log r.2
    = fwd_log st ++ map (λ i, FwdCall (mask_column i (mask_token self) (t_rows tk))
                                      (Some (t_rows am)))
                        (seq 0 (t_cols tk)).
Proof.
  intros Htk Ham Hwf Hes.
  destruct (masked_score_computes self tokens a tk am (Scalar 0) (PerSeq es)
              (λ i, map (in_range (Z.of_nat i) 0) es) st Htk Ham Hwf) as [Hr Hlog].
  { intros i _. split; [apply masked_clip_mask_scalar_start | by rewrite length_map]. }
  unfold PairedControl.MaskedZeroShotScore_score. split; [|exact Hlog].
  rewrite Hr. f_equal. unfold masked_sum. apply imap_ext. intros n r Hn. simpl.
  f_equal. apply map_ext. intros i. do 2 f_equal.
  apply lookup_lt_Some in Hn.
  destruct (lookup_lt_is_Some_2 es n ltac:(lia)) as [e He].
  by rewrite list_lookup_fmap, He.
Qed.

(** * More of the code *)

(** ** Caching of input files *)

(** X1.  Whenever [_copy_if_not_exists] returns, the destination exists;
    a destination that was there before the call keeps its content,
    whatever the source holds; and no other file is touched. *)
Theorem copy_if_not_exists_keeps_existing src dst fs fs' :
  Cache._copy_if_not_exists src dst fs = (None, fs') →
  is_Some (fs' !! dst)
  ∧ (∀ old, fs !! dst = Some old → fs' = fs)
  ∧ (∀ p, p ≠ dst → fs' !! p = fs !! p).
Proof.
  unfold Cache._copy_if_not_exists, Cache.open_xb, Cache.open_rb.
  destruct (fs !! dst) as [old|] eqn:Hdst.
  - intros [= <-]. split; [by rewrite Hdst | done].
  - destruct (<[dst:=[]]> fs !! src) as [content|] eqn:Hsrc; [|done].
    intros [= <-]. split; [by rewrite lookup_insert_eq|]. split; [done|].
    intros p Hp. by rewrite !lookup_insert_ne.
Qed.

Lemma copy_if_not_exists_keeps_existing_witness :
  let fs : Cache.filesystem := <["genome.fa" := [Byte.x78]]> (<["cache.fa" := []]> ∅) in
  is_Some (fs !! "cache.fa")
  ∧ (∀ old, fs !! "cache.fa" = Some old → fs = fs)
  ∧ (∀ p, p ≠ "cache.fa" → fs !! p = fs !! p).
Proof.
  apply (copy_if_not_exists_keeps_existing "genome.fa" "cache.fa"). reflexivity.
Defined.

(** X2.  A destination that does not exist yet is created with the bytes
    of the source, which is left as it is. *)
Theorem copy_if_not_exists_copies src dst fs content :
  fs !! dst = None → fs !! src = Some content →
  Cache._copy_if_not_exists src dst fs = (None, <[dst := content]> fs).
Proof.
  intros Hdst Hsrc. unfold Cache._copy_if_not_exists, Cache.open_xb, Cache.open_rb.
  rewrite Hdst. assert (src ≠ dst) as Hne by (intros ->; congruence).
  rewrite lookup_insert_ne, Hsrc by done. by rewrite insert_insert_eq.
Qed.

Lemma copy_if_not_exists_copies_witness :
  Cache._copy_if_not_exists "genome.fa" "cache.fa" (<["genome.fa" := [Byte.x78]]> ∅)
  = (None, <["cache.fa" := [Byte.x78]]> (<["genome.fa" := [Byte.x78]]> ∅)).
Proof. apply copy_if_not_exists_copies; reflexivity. Defined.

(** X3.  When neither the source nor the destination exists, the call
    raises [FileNotFoundError] and leaves an empty destination behind; a
    later call, made when the source has appeared, returns without copying:
    the destination stays empty. *)
Theorem copy_if_not_exists_missing_source src dst fs content :
  src ≠ dst → fs !! dst = None → fs !! src = None →
  Cache._copy_if_not_exists src dst fs = (Some FileNotFoundError, <[dst := []]> fs)
  ∧ Cache._copy_if_not_exists src dst (<[src := content]> (<[dst := []]> fs))
    = (None, <[src := content]> (<[dst := []]> fs)).
Proof.
  intros Hne Hdst Hsrc. unfold Cache._copy_if_not_exists, Cache.open_xb, Cache.open_rb.
  split.
  - by rewrite Hdst, lookup_insert_ne, Hsrc.
  - by rewrite lookup_insert_ne, lookup_insert_eq.
Qed.

Lemma copy_if_not_exists_missing_source_witness :
  Cache._copy_if_not_exists "genome.fa.fai" "cache.fa.fai" ∅
    = (Some FileNotFoundError, <["cache.fa.fai" := []]> ∅)
  ∧ Cache._copy_if_not_exists "genome.fa.fai" "cache.fa.fai"
      (<["genome.fa.fai" := [Byte.x78]]> (<["cache.fa.fai" := []]> ∅))
    = (None, <["genome.fa.fai" := [Byte.x78]]> (<["cache.fa.fai" := []]> ∅)).
Proof.
  apply (copy_if_not_exists_missing_source "genome.fa.fai" "cache.fa.fai" ∅ [Byte.x78]);
    [discriminate | reflexivity..].
Defined.

(** ** Downsampling by epoch *)

Section DatasetFacts.
Import Dataset.
Context {Row : Type}.

Lemma take_every_offsets (n : nat) (df : list Row) :
  concat (map (λ k, take_every (S n) k df) (seq 0 (S n))) ≡ₚ df.
Proof.
  induction df as [|x rest IH].
  - induction (seq 0 (S n)) as [|k ks IHk]; [done | exact IHk].
  - etrans; [|apply Permutation_skip, IH].
    assert (concat (map (λ k, take_every (S n) k (x :: rest)) (seq 0 (S n)))
            = (x :: take_every (S n) n rest)
              ++ concat (map (λ k, take_every (S n) k rest) (seq 0 n))) as ->.
    { cbn [seq map concat take_every]. replace (S n - 1)%nat with n by lia.
      by rewrite <- seq_shift, map_map. }
    rewrite (seq_S n 0), map_app, concat_app. cbn [map concat Nat.add].
    rewrite app_nil_r. cbn [app]. constructor. apply Permutation_app_comm.
Qed.

Lemma window_offsets (n e0 : nat) :
  map (λ e, e mod S n)%nat (seq e0 (S n)) ≡ₚ seq 0 (S n).
Proof.
  apply submseteq_length_Permutation; [|by rewrite length_map, !length_seq].
  apply NoDup_submseteq.
  - apply NoDup_fmap_2_strong; [|apply NoDup_seq].
    intros a b Ha Hb Hab. apply elem_of_seq in Ha, Hb.
    pose proof (Nat.div_mod_eq a (S n)) as Hda.
    pose proof (Nat.div_mod_eq b (S n)) as Hdb.
    rewrite Hab in Hda.
    generalize dependent (b mod S n)%nat. intros m _ Hda Hdb.
    generalize dependent (a `div` S n)%nat. intros qa Hda.
    generalize dependent (b `div` S n)%nat. intros qb Hdb.
    destruct (lt_eq_lt_dec qa qb) as [[Hlt| ->]|Hlt]; [|lia|].
    + assert (S n * qb ≥ S n * qa + S n)%nat by nia. lia.
    + assert (S n * qa ≥ S n * qb + S n)%nat by nia. lia.
  - intros x Hx. apply list_elem_of_fmap in Hx as (e & -> & _).
    apply elem_of_seq. pose proof (Nat.mod_upper_bound e (S n) ltac:(lia)). lia.
Qed.

(** X4.  With a downsampling ratio [r >= 1], any [r] consecutive epochs
    between them use every row of the table exactly once. *)
Theorem set_epoch_covers_table (self : @dataset Row) r e0 :
  downsample_ratio self = Some r → r ≠ 0%nat →
  concat (map (rows_at self) (seq e0 r)) ≡ₚ elements_df_all self.
Proof.
  intros Hr Hr0. destruct r as [|n]; [done|].
  assert (∀ e, rows_at self e
               = take_every (S n) (e mod S n) (elements_df_all self)) as Hrows.
  { intros e. unfold rows_at, set_epoch. rewrite Hr. by rewrite decide_False. }
  rewrite (map_ext _ _ Hrows).
  rewrite <- (map_map (λ e, e mod S n)%nat
                      (λ k, take_every (S n) k (elements_df_all self))).
  etrans; [|apply (take_every_offsets n)].
  apply concat_perm, Permutation_map, window_offsets.
Qed.

Lemma length_take_every (n : nat) (df : list Row) : ∀ k,
  (k ≤ n)%nat → length (take_every (S n) k df) = ((length df + n - k) / S n)%nat.
Proof.
  induction df as [|x rest IH]; intros k Hk.
  - cbn [take_every length]. symmetry. apply Nat.div_small. lia.
  - destruct k as [|k'].
    + cbn [take_every length]. replace (S n - 1)%nat with n by lia.
      rewrite IH by lia.
      replace (S (length rest) + n - 0)%nat with (length rest + 1 * S n)%nat by lia.
      rewrite Nat.div_add by lia.
      replace (length rest + n - n)%nat with (length rest) by lia. lia.
    + cbn [take_every length]. rewrite IH by lia. done.
Qed.

(** X5.  A dataset built with a downsampling ratio [r >= 1] has no table
    in use until [set_epoch] has been called: [__len__] raises
    [AttributeError].  After [set_epoch(epoch)] its length is the number of
    rows of the table, less the offset [epoch % r], divided by [r] and
    rounded up.  Built without a ratio, its length is that of the table. *)
Theorem len_after_set_epoch (rows : list Row) r epoch :
  r ≠ 0%nat →
  __len__ (init rows (Some r)) = inl (Raised AttributeError)
  ∧ set_epoch (init rows (Some r)) epoch ≫= __len__
    = inr ((length rows + r - 1 - epoch mod r) / r)%nat
  ∧ set_epoch (init rows None) epoch ≫= __len__ = inr (length rows).
Proof.
  intros Hr. destruct r as [|n]; [done|]. split; [done|]. split; [|done].
  unfold set_epoch, init. cbn [downsample_ratio]. rewrite decide_False by done.
  cbn [mbind pyexn_bind __len__ elements_df elements_df_all].
  pose proof (Nat.mod_upper_bound epoch (S n) ltac:(lia)).
  rewrite length_take_every by lia. do 2 f_equal. lia.
Qed.

End DatasetFacts.

Lemma set_epoch_covers_table_witness :
  concat (map (Dataset.rows_at (Dataset.init [10; 11; 12; 13; 14; 15; 16]%nat (Some 3%nat)))
              (seq 5 3))
  ≡ₚ [10; 11; 12; 13; 14; 15; 16]%nat.
Proof.
  apply (set_epoch_covers_table (Dataset.init [10; 11; 12; 13; 14; 15; 16]%nat (Some 3%nat))
           3 5); [reflexivity | lia].
Defined.

Lemma len_after_set_epoch_witness :
  Dataset.__len__ (Dataset.init [10; 11; 12; 13; 14; 15; 16]%nat (Some 3%nat))
    = inl (Raised AttributeError)
  ∧ Dataset.set_epoch (Dataset.init [10; 11; 12; 13; 14; 15; 16]%nat (Some 3%nat)) 5
      ≫= Dataset.__len__
    = inr ((length [10; 11; 12; 13; 14; 15; 16]%nat + 3 - 1 - 5 mod 3) / 3)%nat
  ∧ Dataset.set_epoch (Dataset.init [10; 11; 12; 13; 14; 15; 16]%nat None) 5
      ≫= Dataset.__len__
    = inr (length [10; 11; 12; 13; 14; 15; 16]%nat).
Proof.
  apply (len_after_set_epoch [10; 11; 12; 13; 14; 15; 16]%nat 3 5). lia.
Defined.

(** ** Token indices from character offsets *)

Section VariantIndicesFacts.
Import VariantIndices.

Lemma length_slice_assign {A} start stop (v : A) row :
  length (slice_assign start stop v row) = length row.
Proof. unfold slice_assign. apply length_imap. Qed.

Lemma lookup_slice_assign {A} start stop (v : A) row p :
  slice_assign start stop v row !! p
  = (λ x, if decide (start ≤ p < stop)%nat then v else x) <$> row !! p.
Proof. unfold slice_assign. apply list_lookup_imap. Qed.

Lemma length_mark_row offset : ∀ j row, length (mark_row j offset row) = length row.
Proof.
  induction offset as [|[start stop] rest IH]; intros j row; [done|].
  simpl. by rewrite IH, length_slice_assign.
Qed.

Lemma mark_row_untouched offset : ∀ j row p,
  (∀ k, ¬ spans offset k p) → mark_row j offset row !! p = row !! p.
Proof.
  induction offset as [|[start stop] rest IH]; intros j row p Hno; [done|].
  simpl. rewrite IH.
  - rewrite lookup_slice_assign. destruct (row !! p) as [x|]; [|done]. simpl.
    rewrite decide_False; [done|]. intros Hp. apply (Hno 0%nat). by exists start, stop.
  - intros k (s & e & Hk & Hp). apply (Hno (S k)). by exists s, e.
Qed.

Lemma mark_row_last offset : ∀ j row p k,
  (p < length row)%nat → spans offset k p → (∀ k', (k < k')%nat → ¬ spans offset k' p) →
  mark_row j offset row !! p = Some (j + k)%nat.
Proof.
  induction offset as [|[start stop] rest IH]; intros j row p k Hp Hk Hlast.
  { by destruct Hk as (? & ? & ? & _). }
  simpl. destruct k as [|k].
  - destruct Hk as (s & e & [= <- <-] & Hse).
    rewrite mark_row_untouched.
    + rewrite lookup_slice_assign.
      destruct (lookup_lt_is_Some_2 row p Hp) as [x ->]. simpl.
      rewrite decide_True by done. f_equal. lia.
    + intros k' (s & e & Hk' & Hp'). apply (Hlast (S k')); [lia|]. by exists s, e.
  - rewrite (IH (S j) _ p k).
    + f_equal. lia.
    + by rewrite length_slice_assign.
    + destruct Hk as (s & e & Hk & Hse). by exists s, e.
    + intros k' Hk' (s & e & Hk'' & Hse). apply (Hlast (S k')); [lia|]. by exists s, e.
Qed.

Lemma mark_rows_spec offsets : ∀ i gather_idx res,
  mark_rows i offsets gather_idx = inr res →
  length res = length gather_idx
  ∧ ∀ n row, gather_idx !! n = Some row →
      res !! n = Some (if decide (i ≤ n)%nat
                       then mark_row 0 (default [] (offsets !! (n - i)%nat)) row
                       else row).
Proof.
  induction offsets as [|offset rest IH]; intros i gather_idx res Hres.
  - simpl in Hres. injection Hres as <-. split; [done|]. intros n row Hn.
    rewrite lookup_nil. simpl. by case_decide.
  - simpl in Hres. unfold mbind, pyexn_bind in Hres.
    destruct offset as [|span offset].
    + apply IH in Hres as [Hlen Hrows]. split; [done|]. intros n row Hn.
      rewrite (Hrows n row Hn). destruct (decide (i ≤ n)%nat) as [Hin|Hin].
      * destruct (decide (n = i)) as [->|Hne].
        -- rewrite decide_False by lia. by rewrite Nat.sub_diag.
        -- rewrite decide_True by lia. by replace (n - i)%nat with (S (n - S i)) by lia.
      * by rewrite decide_False by lia.
    + case_decide as Hi; [|done].
      apply IH in Hres as [Hlen Hrows]. rewrite length_alter in Hlen. split; [done|].
      intros n row Hn. destruct (decide (n = i)) as [->|Hne].
      * rewrite (Hrows i (mark_row 0 (span :: offset) row)).
        -- rewrite decide_False by lia. rewrite decide_True by lia.
           by rewrite Nat.sub_diag.
        -- by rewrite list_lookup_alter_eq, Hn.
      * rewrite (Hrows n row) by (by rewrite list_lookup_alter_ne).
        destruct (decide (i ≤ n)%nat) as [Hin|Hin].
        -- rewrite decide_True by lia. by replace (n - i)%nat with (S (n - S i)) by lia.
        -- by rewrite decide_False by lia.
Qed.

(** X6.  When [_offsets_to_indices] returns, the result has the shape of
    the token tensor, and in every row each position holds the index of the
    last token whose character span contains it, or 0 when no span does. *)
Theorem offsets_to_indices_last_span offsets shape0 shape1 res :
  _offsets_to_indices offsets shape0 shape1 = inr res →
  length res = shape0
  ∧ ∀ n row, res !! n = Some row →
      length row = shape1
      ∧ ∀ p, (p < shape1)%nat →
          let offset := default [] (offsets !! n) in
          ((∀ j, ¬ spans offset j p) → row !! p = Some 0%nat)
          ∧ (∀ j, spans offset j p → (∀ j', (j < j')%nat → ¬ spans offset j' p) →
                  row !! p = Some j).
Proof.
  unfold _offsets_to_indices. intros Hres.
  apply mark_rows_spec in Hres as [Hlen Hrows]. rewrite length_replicate in Hlen.
  split; [done|]. intros n row Hn.
  assert (n < shape0)%nat as Hlt by (apply lookup_lt_Some in Hn; lia).
  rewrite (Hrows n (replicate shape1 0%nat)) in Hn
    by (by apply lookup_replicate_2).
  rewrite decide_True, Nat.sub_0_r in Hn by lia. injection Hn as <-.
  split; [by rewrite length_mark_row, length_replicate|].
  intros p Hp. cbv zeta. split.
  - intros Hno. rewrite mark_row_untouched by done. by apply lookup_replicate_2.
  - intros j Hj Hlast.
    rewrite (mark_row_last _ 0 _ p j); [done | by rewrite length_replicate | done..].
Qed.

Lemma offsets_to_indices_last_span_witness :
  ∃ res,
    _offsets_to_indices [[(0, 0); (0, 3); (3, 5); (0, 0)]%nat] 1 6 = inr res
    ∧ res = [[1; 1; 1; 2; 2; 0]%nat]
    ∧ length res = 1%nat.
Proof.
  exists [[1; 1; 1; 2; 2; 0]%nat].
  split; [reflexivity|]. split; [reflexivity|].
  apply (offsets_to_indices_last_span [[(0, 0); (0, 3); (3, 5); (0, 0)]%nat] 1 6).
  reflexivity.
Defined.

Lemma mark_rows_returns offs : ∀ i gather_idx,
  (i + length offs ≤ length gather_idx)%nat →
  ∃ res, mark_rows i offs gather_idx = inr res.
Proof.
  induction offs as [|offset rest IH]; intros i g Hlen; [by eexists|].
  simpl in *. unfold mbind, pyexn_bind. destruct offset as [|span offset].
  - apply IH. lia.
  - rewrite decide_True by lia. apply IH. rewrite length_alter. lia.
Qed.

Lemma mark_rows_raises offs : ∀ i gather_idx k span offset,
  (length gather_idx ≤ i + k)%nat → offs !! k = Some (span :: offset) →
  mark_rows i offs gather_idx = inl IndexError.
Proof.
  induction offs as [|o rest IH]; intros i g k span offset Hlen Hk; [done|].
  simpl. unfold mbind, pyexn_bind. destruct k as [|k].
  - injection Hk as ->. rewrite decide_False by lia. done.
  - simpl in Hk. destruct o as [|sp o].
    + apply (IH (S i) g k span offset); [lia | done].
    + case_decide; [|done].
      apply (IH (S i) _ k span offset); [rewrite length_alter; lia | done].
Qed.

(** X7.  [_offsets_to_indices] returns when there are no more rows of
    offsets than rows of tokens, and raises [IndexError] when a row of
    offsets beyond the rows of the token tensor holds a span. *)
Theorem offsets_to_indices_rows offsets shape0 shape1 :
  ((length offsets ≤ shape0)%nat →
     ∃ res, _offsets_to_indices offsets shape0 shape1 = inr res)
  ∧ (∀ n span offset, (shape0 ≤ n)%nat → offsets !! n = Some (span :: offset) →
       _offsets_to_indices offsets shape0 shape1 = inl IndexError).
Proof.
  unfold _offsets_to_indices. split.
  - intros Hlen. apply mark_rows_returns. rewrite length_replicate. simpl. lia.
  - intros n span offset Hn Hspan.
    apply (mark_rows_raises offsets 0 _ n span offset); [|done].
    rewrite length_replicate. simpl. lia.
Qed.

Lemma offsets_to_indices_rows_witness :
  (∃ res, _offsets_to_indices [[(0, 2)%nat]; []] 2 3 = inr res)
  ∧ _offsets_to_indices [[(0, 2)%nat]; []; [(1, 2)%nat]] 2 3 = inl IndexError.
Proof.
  split.
  - apply (offsets_to_indices_rows [[(0, 2)%nat]; []] 2 3). simpl. lia.
  - apply (proj2 (offsets_to_indices_rows [[(0, 2)%nat]; []; [(1, 2)%nat]] 2 3)
             2%nat (1, 2)%nat []); [lia | reflexivity].
Defined.

End VariantIndicesFacts.

Section NTIndicesFacts.
Import VariantIndices.

(** The table the loop of [NTVariantEvaluator._offsets_to_indices] has
    filled after [k] turns. *)
Lemma nt_loop (L k : nat) :
  (6 * k ≤ L)%nat →
  foldl (λ '(inds, _) i, (slice_assign (i * 6) ((i + 1) * 6) (i + 1)%nat inds, Some i))
        (replicate L 0%nat, None) (seq 0 k)
  = (map (λ p, if decide (p < 6 * k)%nat then (p / 6 + 1)%nat else 0%nat) (seq 0 L),
     match k with O => None | S k' => Some k' end).
Proof.
  induction k as [|k IH]; intros Hk.
  - simpl. f_equal. apply list_eq. intros p.
    destruct (decide (p < L)%nat) as [Hp|Hp].
    + rewrite lookup_replicate_2 by done.
      by rewrite list_lookup_fmap, lookup_seq_lt by done.
    + rewrite !lookup_ge_None_2; [done | rewrite length_map, length_seq; lia
                                 | rewrite length_replicate; lia].
  - rewrite seq_S, foldl_app, IH by lia. cbn -[Nat.div Nat.mul]. f_equal.
    apply list_eq. intros p. rewrite lookup_slice_assign, !list_lookup_fmap.
    destruct (decide (p < L)%nat) as [Hp|Hp].
    + rewrite lookup_seq_lt by done. cbn -[Nat.div Nat.mul]. f_equal.
      repeat case_decide; try lia.
      assert (p / 6 = k)%nat as ->; [|lia].
      symmetry. apply Nat.div_unique with (r := (p - 6 * k)%nat); lia.
    + by rewrite lookup_seq_ge by lia.
Qed.

(** X8.  [NTVariantEvaluator._offsets_to_indices] raises
    [UnboundLocalError] for fewer than six positions: the loop does not run
    and its variable is read after it. *)
Theorem nt_offsets_to_indices_short shape0 seq_len :
  (seq_len < 6)%nat → nt_offsets_to_indices shape0 seq_len = inl UnboundLocalError.
Proof.
  intros H. unfold nt_offsets_to_indices.
  by rewrite (Nat.div_small seq_len 6 H).
Qed.

Lemma nt_offsets_to_indices_short_witness :
  nt_offsets_to_indices 2 5 = inl UnboundLocalError.
Proof. apply nt_offsets_to_indices_short. lia. Defined.

(** X9.  For six positions or more it returns, for every sequence, the
    same row: full groups of six positions numbered 1, 2, ..., and the
    remaining positions, fewer than six, numbered one by one from the next
    number on. *)
Theorem nt_offsets_to_indices_groups shape0 seq_len :
  (6 ≤ seq_len)%nat →
  nt_offsets_to_indices shape0 seq_len
  = inr (replicate shape0
           (map (λ p, if decide (p < 6 * (seq_len / 6))%nat
                      then (p / 6 + 1)%nat
                      else (seq_len / 6 + 1 + (p - 6 * (seq_len / 6)))%nat)
                (seq 0 seq_len))).
Proof.
  intros HL. unfold nt_offsets_to_indices.
  pose proof (Nat.div_mod_eq seq_len 6) as Hdm.
  pose proof (Nat.mod_upper_bound seq_len 6 ltac:(lia)) as Hmod.
  rewrite nt_loop by lia.
  destruct (seq_len / 6)%nat as [|q] eqn:Hq; [lia|].
  rewrite decide_True.
  2:{ rewrite length_seq, length_drop, length_map, length_seq. lia. }
  do 2 f_equal. apply list_eq. intros p.
  rewrite list_lookup_fmap.
  destruct (decide (p < (q + 1) * 6)%nat) as [Hp|Hp].
  - rewrite lookup_app_l by (rewrite length_take, length_map, length_seq; lia).
    rewrite lookup_take_lt by done.
    rewrite list_lookup_fmap, lookup_seq_lt by lia. cbn -[Nat.div Nat.mul].
    by rewrite !decide_True by lia.
  - rewrite lookup_app_r by (rewrite length_take, length_map, length_seq; lia).
    rewrite length_take, length_map, length_seq.
    replace (((q + 1) * 6) `min` seq_len)%nat with ((q + 1) * 6)%nat by lia.
    destruct (decide (p < seq_len)%nat) as [Hlt|Hge].
    + rewrite !lookup_seq_lt by lia. cbn -[Nat.div Nat.mul].
      rewrite decide_False by lia. f_equal. lia.
    + by rewrite !lookup_seq_ge by lia.
Qed.

Lemma nt_offsets_to_indices_groups_witness :
  nt_offsets_to_indices 2 14
  = inr (replicate 2 [1; 1; 1; 1; 1; 1; 2; 2; 2; 2; 2; 2; 3; 4]%nat).
Proof. apply (nt_offsets_to_indices_groups 2 14). lia. Defined.

End NTIndicesFacts.

(** ** The other tokenizers *)

(** X10.  [HDProbingVariantEvaluator.tokenize] does not raise for want of
    an attention mask: whenever the token ids are there it returns them
    with one start per row or match, and when the mask is missing it
    returns [None] for the mask and, unless an end token is configured,
    [None] for the ends. *)
Theorem hd_probing_tokenize_returns self enc st tokens tk :
  enc !! "input_ids" = Some tokens → heap st !! tokens = Some tk →
  ∃ starts ends am,
    SingleVariants.hd_probing_tokenize self enc st
      = (inr (tokens, starts, ends, am, PyNone), st)
    ∧ (enc !! "attention_mask" = None →
         am = PyNone
         ∧ ends = match end_token self with
                  | Some e => Some (PerSeq (where_cols e (t_rows tk)))
                  | None => None
                  end).
Proof.
  intros Hin Htk. unfold SingleVariants.hd_probing_tokenize.
  unfold mbind at 1. unfold M_bind at 1. unfold lift at 1. rewrite Hin. simpl.
  unfold mbind at 1. unfold M_bind at 1.
  assert (∃ am ends,
            try_except
              (a ← lift (from_option inr (inl KeyError) (enc !! "attention_mask"));
               am ← deref a;
               mret (PyTensor a, Some (PerSeq (row_sums (t_rows am)))))
              (mret (PyNone, None)) st = (inr (am, ends), st)
            ∧ (enc !! "attention_mask" = None → am = PyNone ∧ ends = None))
    as (am & ends & -> & Hnone).
  { unfold try_except, mbind, M_bind, lift, deref, mret, M_ret.
    destruct (enc !! "attention_mask") as [a|]; simpl.
    - destruct (heap st !! a) as [m|]; simpl; eexists _, _; (split; [reflexivity | done]).
    - eexists _, _. split; [reflexivity | done]. }
  unfold deref, mbind, M_bind, mret, M_ret. rewrite Htk.
  eexists _, _, _. split; [reflexivity|].
  intros Hmask. destruct (Hnone Hmask) as [-> ->]. by destruct (end_token self).
Qed.

Lemma hd_probing_tokenize_returns_witness :
  ∃ starts ends am,
    SingleVariants.hd_probing_tokenize (Evaluator CPU 4 None None stub_log_softmax)
        ex_encoded_no_mask ex_store
      = (inr (1%positive, starts, ends, am, PyNone), ex_store)
    ∧ (ex_encoded_no_mask !! "attention_mask" = None →
         am = PyNone ∧ ends = None).
Proof.
  apply (hd_probing_tokenize_returns (Evaluator CPU 4 None None stub_log_softmax)
           ex_encoded_no_mask ex_store 1%positive ex_tokens); reflexivity.
Defined.

(** X11.  [VariantLikelihoodEvaluator.tokenize] raises [KeyError] when the
    tokenizer returned no offset mapping, and otherwise returns or raises
    as [LikelihoodEvaluator.tokenize] does, with the same tokens, starts,
    ends and mask. *)
Theorem variant_tokenize_extends_tokenize self enc st tokens :
  enc !! "input_ids" = Some tokens →
  match enc !! "offset_mapping" with
  | None => SingleVariants.variant_tokenize self enc st = (inl KeyError, st)
  | Some o =>
      match Single.tokenize self enc st with
      | (inr r, st') => SingleVariants.variant_tokenize self enc st = (inr (r, o), st')
      | (inl e, st') => SingleVariants.variant_tokenize self enc st = (inl e, st')
      end
  end.
Proof.
  intros Hin. unfold SingleVariants.variant_tokenize, Single.tokenize.
  unfold mbind, M_bind, lift, mret, M_ret. rewrite Hin. simpl.
  destruct (enc !! "offset_mapping") as [o|]; simpl; [|done].
  destruct (deref tokens st) as [[e|tk] st1]; [done|].
  destruct (end_token self) as [e|]; simpl; [done|].
  destruct (enc !! "attention_mask") as [a|]; simpl; [|done].
  by destruct (deref a st1) as [[e|am] st2].
Qed.

Lemma variant_tokenize_extends_tokenize_witness :
  SingleVariants.variant_tokenize DNABERT2Evaluator ex_encoded ex_store = (inl KeyError, ex_store)
  ∧ SingleVariants.variant_tokenize DNABERT2Evaluator
      (<["offset_mapping" := 2%positive]> ex_encoded) ex_store
    = (inr (1%positive, PerSeq [1; 1], PerSeq [3; 2], PyTensor 2%positive, 2%positive),
       ex_store).
Proof.
  split.
  - exact (variant_tokenize_extends_tokenize DNABERT2Evaluator ex_encoded ex_store
             1%positive eq_refl).
  - exact (variant_tokenize_extends_tokenize DNABERT2Evaluator
             (<["offset_mapping" := 2%positive]> ex_encoded) ex_store 1%positive eq_refl).
Defined.

(** ** Writing likelihoods to a file *)

Section SingleEvaluateFacts.
Import SingleEvaluate.
Context {B : Type}.
Variable tokenize : B → M (loc * offsets * offsets * pyarg).
Variable score : loc → offsets → offsets → pyarg → M (list Qc).
Variable tokenize5 : B → M (loc * offsets * offsets * pyarg * loc).
Variable score5 : loc → offsets → offsets → pyarg → loc → M (list Qc).

Lemma write_all_spec lls st (file : list Qc) :
  write_all lls (st, file) = (inr (), (st, file ++ lls)).
Proof.
  revert file. induction lls as [|l lls IH]; intros file; simpl.
  - by rewrite app_nil_r.
  - unfold mbind, ST_bind. simpl. rewrite IH. by rewrite <- (assoc_L (++)).
Qed.

Lemma evaluate_loop_cons_returns seqs rest st file lls st' :
  run_batch tokenize score seqs st = (inr lls, st') →
  evaluate_loop tokenize score (seqs :: rest) (st, file)
  = evaluate_loop tokenize score rest (st', file ++ lls).
Proof.
  unfold run_batch. simpl. unfold mbind, M_bind, ST_bind, run_store. intros H.
  destruct (tokenize seqs st) as [[e|[[[t s] e] a]] st1]; [done|].
  rewrite H. by rewrite write_all_spec.
Qed.

Lemma evaluate_loop_cons_raises seqs rest st file e st' :
  run_batch tokenize score seqs st = (inl e, st') →
  evaluate_loop tokenize score (seqs :: rest) (st, file)
  = (inl (Raised e), (st', file)).
Proof.
  unfold run_batch. simpl. unfold mbind, M_bind, ST_bind, run_store. intros H.
  destruct (tokenize seqs st) as [[e1|[[[t s] e1] a]] st1].
  - by injection H as -> ->.
  - by rewrite H.
Qed.

Lemma evaluate_loop_returns (sc : B → list Qc) done rest :
  (∀ b, b ∈ done → always_returns (run_batch tokenize score b) (sc b)) →
  ∀ st file, ∃ st',
    evaluate_loop tokenize score (done ++ rest) (st, file)
    = evaluate_loop tokenize score rest (st', file ++ concat (map sc done)).
Proof.
  induction done as [|b done IH]; intros Hsc st file.
  - exists st. simpl. by rewrite app_nil_r.
  - destruct (Hsc b ltac:(left) st) as [st1 Hb].
    destruct (IH (λ b' Hb', Hsc b' ltac:(by right)) st1 (file ++ sc b)) as [st' Hrest].
    exists st'. change ((b :: done) ++ rest) with (b :: (done ++ rest)).
    rewrite (evaluate_loop_cons_returns _ _ _ _ _ _ Hb), Hrest.
    simpl. by rewrite (assoc_L (++)).
Qed.

(** X12.  When tokenizing and scoring return on every batch,
    [LikelihoodEvaluator.evaluate] leaves in the output file one line per
    score, batch after batch in the order of the dataset, and nothing of
    what the file held before. *)
Theorem evaluate_writes_scores (sc : B → list Qc) dataloader st file :
  (∀ b, b ∈ dataloader → always_returns (run_batch tokenize score b) (sc b)) →
  ∃ st', evaluate tokenize score dataloader (st, file)
         = (inr (), (st', concat (map sc dataloader))).
Proof.
  intros Hsc. unfold evaluate, mbind, ST_bind. simpl.
  destruct (evaluate_loop_returns sc dataloader [] Hsc st []) as [st' H].
  exists st'. rewrite app_nil_r in H. by rewrite H.
Qed.

(** X13.  When a batch raises, the exception leaves
    [LikelihoodEvaluator.evaluate], and the file holds the lines of the
    batches before it. *)
Theorem evaluate_keeps_lines_before_failure (sc : B → list Qc) done bad rest e st file :
  (∀ b, b ∈ done → always_returns (run_batch tokenize score b) (sc b)) →
  always_raises (run_batch tokenize score bad) e →
  ∃ st', evaluate tokenize score (done ++ bad :: rest) (st, file)
         = (inl (Raised e), (st', concat (map sc done))).
Proof.
  intros Hsc Hbad. unfold evaluate, mbind, ST_bind. simpl.
  destruct (evaluate_loop_returns sc done (bad :: rest) Hsc st []) as [st1 H].
  destruct (Hbad st1) as [st' Hraise].
  exists st'. rewrite H. by rewrite (evaluate_loop_cons_raises _ _ _ _ _ _ Hraise).
Qed.

Lemma write_pairs_spec pairs : ∀ locals st (file : list (Qc * Qc)),
  write_pairs pairs locals (st, file)
  = (inr (MkLocals (allele1_likelihoods locals ++ pairs.*1)
                   (allele2_likelihoods locals ++ pairs.*2)
                   (match pairs with
                    | [] => df locals
                    | _ => Some (allele1_likelihoods locals ++ pairs.*1,
                                 allele2_likelihoods locals ++ pairs.*2)
                    end)),
     (st, file ++ pairs)).
Proof.
  induction pairs as [|[l1 l2] pairs IH]; intros locals st file.
  - simpl. rewrite !app_nil_r. by destruct locals.
  - simpl. unfold mbind, ST_bind. simpl. rewrite IH. simpl.
    rewrite <- !(assoc_L (++)). simpl. by destruct pairs.
Qed.

Lemma variant_loop_returns (sc : B → list Qc) dataloader :
  scores_with tokenize5 score5 sc →
  ∀ pairs st file, ∃ st',
    variant_loop tokenize5 score5 dataloader (locals_of pairs) (st, file)
    = (inr (locals_of (pairs ++ pairs_of sc dataloader)),
       (st', file ++ pairs_of sc dataloader)).
Proof.
  intros Hsc. induction dataloader as [|[a1 a2] rest IH]; intros pairs st file.
  - exists st. unfold pairs_of. simpl. by rewrite !app_nil_r.
  - destruct (Hsc a1 st) as (t1 & s1 & e1 & m1 & o1 & st1 & Htok1 & Hsub1 & Hscore1).
    destruct (Hsc a2 st1) as (t2 & s2 & e2 & m2 & o2 & st2 & Htok2 & Hsub2 & Hscore2).
    destruct (Hscore1 st2 Hsub2) as (st3 & Hlls1 & Hsub3).
    destruct (Hscore2 st3 Hsub3) as (st4 & Hlls2 & _).
    destruct (IH (pairs ++ zip (sc a1) (sc a2)) st4 (file ++ zip (sc a1) (sc a2)))
      as [st' Hrest].
    exists st'. cbn [variant_loop]. unfold mbind, ST_bind, run_store.
    rewrite Htok1, Htok2, Hlls1, Hlls2, write_pairs_spec.
    replace (MkLocals _ _ _) with (locals_of (pairs ++ zip (sc a1) (sc a2))).
    + rewrite Hrest. unfold pairs_of. cbn [map concat]. by rewrite !(assoc_L (++)).
    + unfold locals_of. cbn [allele1_likelihoods allele2_likelihoods df].
      rewrite !fmap_app.
      destruct (zip (sc a1) (sc a2)); [rewrite !app_nil_r|]; by destruct pairs.
Qed.

(** X14.  When tokenizing and scoring return on every batch,
    [VariantLikelihoodEvaluator.evaluate] appends to the output file one
    line per pair of scores, the scores of the two alleles of a batch
    paired in order up to the shorter of the two, and returns these pairs
    as the two columns of the frame; when no pair was written, as for an
    empty dataset, it raises UnboundLocalError instead. *)
Theorem variant_evaluate_appends_pairs (sc : B → list Qc) dataloader st file :
  scores_with tokenize5 score5 sc →
  ∃ st', variant_evaluate tokenize5 score5 dataloader (st, file)
         = (match pairs_of sc dataloader with
            | [] => inl UnboundLocalError
            | pairs => inr (pairs.*1, pairs.*2)
            end,
            (st', file ++ pairs_of sc dataloader)).
Proof.
  intros Hsc.
  destruct (variant_loop_returns sc dataloader Hsc [] st file) as [st' H].
  exists st'. unfold variant_evaluate, mbind, ST_bind.
  change (MkLocals [] [] None) with (locals_of []). rewrite H. simpl.
  by destruct (pairs_of sc dataloader).
Qed.

End SingleEvaluateFacts.

Lemma stub_batch_returns rows :
  always_returns (run_batch stub_tokenize stub_score rows) (stub_scores rows).
Proof.
  intros st. eexists. unfold run_batch, stub_tokenize, stub_score, alloc, deref.
  unfold mbind, M_bind, mret, M_ret. cbn [heap]. by rewrite lookup_insert_eq.
Qed.

Lemma evaluate_writes_scores_witness :
  (∀ b, b ∈ [[[10]; [-5]]; [[5]]] →
     always_returns (run_batch stub_tokenize stub_score b) (stub_scores b))
  ∧ ∃ st', SingleEvaluate.evaluate stub_tokenize stub_score [[[10]; [-5]]; [[5]]]
             (ex_empty_store, [Qc_of_Z 7])
           = (inr (), (st', stub_scores [[10]; [-5]] ++ stub_scores [[5]])).
Proof.
  split.
  - intros b _. apply stub_batch_returns.
  - destruct (evaluate_writes_scores stub_tokenize stub_score stub_scores
             [[[10]; [-5]]; [[5]]] ex_empty_store [Qc_of_Z 7]) as [st' H].
    + intros b _. apply stub_batch_returns.
    + exists st'. by rewrite H.
Defined.

Lemma evaluate_keeps_lines_before_failure_witness :
  (∀ b, b ∈ [[[10]; [-5]]] →
     always_returns (run_batch stub_tokenize_nonempty stub_score b) (stub_scores b))
  ∧ always_raises (run_batch stub_tokenize_nonempty stub_score []) ValueError
  ∧ ∃ st', SingleEvaluate.evaluate stub_tokenize_nonempty stub_score
             ([[[10]; [-5]]] ++ [] :: [[[5]]]) (ex_empty_store, [Qc_of_Z 7])
           = (inl (Raised ValueError), (st', stub_scores [[10]; [-5]])).
Proof.
  assert (∀ b, b ∈ [[[10]; [-5]]] →
     always_returns (run_batch stub_tokenize_nonempty stub_score b) (stub_scores b)) as Hdone.
  { intros b Hb. apply list_elem_of_singleton in Hb as ->. apply stub_batch_returns. }
  assert (always_raises (run_batch stub_tokenize_nonempty stub_score []) ValueError)
    as Hbad.
  { intros st. by exists st. }
  split; [exact Hdone|]. split; [exact Hbad|].
  destruct (evaluate_keeps_lines_before_failure stub_tokenize_nonempty stub_score
           stub_scores [[[10]; [-5]]] [] [[[5]]] ValueError ex_empty_store [Qc_of_Z 7]
           Hdone Hbad) as [st' H].
  exists st'. rewrite H. by f_equal.
Defined.

Lemma stub_scores_with : scores_with stub_tokenize5 stub_score5 stub_scores.
Proof.
  intros rows st. unfold stub_tokenize5, stub_score5, stub_score, alloc, deref.
  unfold mbind, M_bind, mret, M_ret. do 6 eexists. split; [reflexivity|].
  cbn [heap]. split.
  - apply insert_subseteq, not_elem_of_dom, is_fresh.
  - intros st2 Hsub. exists st2.
    rewrite (lookup_weaken _ _ _ _ (lookup_insert_eq _ _ _) Hsub). done.
Qed.

Lemma variant_evaluate_appends_pairs_witness :
  scores_with stub_tokenize5 stub_score5 stub_scores
  ∧ ∃ st', SingleEvaluate.variant_evaluate stub_tokenize5 stub_score5
             [([[10]; [-5]], [[20]]); ([[5]], [[0]; [1]])]
             (ex_empty_store, [(Qc_of_Z 7, Qc_of_Z 8)])
           = (inr ([1%Qc; (Qc_of_Z 5 / Qc_of_Z 10)%Qc], [2%Qc; 0%Qc]),
              (st', [(Qc_of_Z 7, Qc_of_Z 8); (1%Qc, 2%Qc);
                     ((Qc_of_Z 5 / Qc_of_Z 10)%Qc, 0%Qc)])).
Proof.
  split; [exact stub_scores_with|].
  destruct (variant_evaluate_appends_pairs stub_tokenize5 stub_score5 stub_scores
              [([[10]; [-5]], [[20]]); ([[5]], [[0]; [1]])]
              ex_empty_store [(Qc_of_Z 7, Qc_of_Z 8)] stub_scores_with) as [st' H].
  exists st'. rewrite H. f_equal; [by_evaluation|f_equal; by_evaluation].
Defined.

(** ** The scorers as [evaluate] calls them *)

Section ScoreArity.
Context {B : Type}.
Variable self : evaluator.
Variable fwd : list pyarg → M ftensor.

(** X15.  [LikelihoodEvaluator.evaluate] passes four arguments to
    [self.score], and [MaskedZeroShotScore.score] has five parameters: for
    an evaluator that combines the two, as [DNABERT2Evaluator],
    [GenaLMEvaluator] and [NTEvaluator] do, the first batch that is
    tokenized raises [TypeError], and the output file is left empty. *)
Theorem evaluate_masked_score_raises (tokenize : B → M (loc * offsets * offsets * pyarg))
    seqs rest st file :
  returns_from (tokenize seqs) st →
  ∃ st', SingleEvaluate.evaluate tokenize
           (SingleMethods.call4 (SingleMethods.MaskedZeroShotScore_score self fwd))
           (seqs :: rest) (st, file)
         = (inl (Raised TypeError), (st', [])).
Proof.
  intros ([[[tokens starts] ends] am] & st1 & Htok). exists st1.
  unfold SingleEvaluate.evaluate, mbind, ST_bind. simpl.
  unfold mbind, ST_bind, run_store. by rewrite Htok.
Qed.

(** X16.  [VariantLikelihoodEvaluator.evaluate] passes five arguments to
    [self.score], and [CausalZeroShotScore.score] has four parameters: for
    an evaluator that combines the two, as [HDZeroShotVariantEvaluator]
    and [MistralZeroShotVariantEvaluator] do, the first batch of which both
    alleles are tokenized raises [TypeError] before anything is written. *)
Theorem variant_evaluate_causal_score_raises
    (tokenize5 : B → M (loc * offsets * offsets * pyarg * loc))
    allele1 allele2 rest st file r1 st1 :
  tokenize5 allele1 st = (inr r1, st1) →
  returns_from (tokenize5 allele2) st1 →
  ∃ st', SingleEvaluate.variant_evaluate tokenize5
           (SingleMethods.call5 (SingleMethods.CausalZeroShotScore_score self fwd))
           ((allele1, allele2) :: rest) (st, file)
         = (inl (Raised TypeError), (st', file)).
Proof.
  intros Htok1 ([[[[t2 s2] e2] m2] o2] & st2 & Htok2). exists st2.
  destruct r1 as [[[[t1 s1] e1] m1] o1].
  unfold SingleEvaluate.variant_evaluate, mbind, ST_bind. simpl.
  unfold mbind, ST_bind, run_store. by rewrite Htok1, Htok2.
Qed.

End ScoreArity.

Lemma evaluate_masked_score_raises_witness :
  returns_from (stub_tokenize [[10]; [-5]]) ex_empty_store
  ∧ ∃ st', SingleEvaluate.evaluate stub_tokenize
             (SingleMethods.call4
                (SingleMethods.MaskedZeroShotScore_score DNABERT2Evaluator
                   (Single.model_fwd DNABERT2Evaluator)))
             ([[10]; [-5]] :: [[[5]]]) (ex_empty_store, [Qc_of_Z 7])
           = (inl (Raised TypeError), (st', [])).
Proof.
  assert (returns_from (stub_tokenize [[10]; [-5]]) ex_empty_store) as H.
  { by do 2 eexists. }
  split; [exact H|].
  exact (evaluate_masked_score_raises DNABERT2Evaluator (Single.model_fwd DNABERT2Evaluator)
           stub_tokenize [[10]; [-5]] [[[5]]] ex_empty_store [Qc_of_Z 7] H).
Defined.

Lemma variant_evaluate_causal_score_raises_witness :
  ∃ r1 st1,
    stub_tokenize5 [[10]; [-5]] ex_empty_store = (inr r1, st1)
    ∧ returns_from (stub_tokenize5 [[20]]) st1
    ∧ ∃ st', SingleEvaluate.variant_evaluate stub_tokenize5
               (SingleMethods.call5
                  (SingleMethods.CausalZeroShotScore_score HDEvaluator
                     (Single.model_fwd HDEvaluator)))
               (([[10]; [-5]], [[20]]) :: []) (ex_empty_store, [(Qc_of_Z 7, Qc_of_Z 8)])
             = (inl (Raised TypeError), (st', [(Qc_of_Z 7, Qc_of_Z 8)])).
Proof.
  do 2 eexists. split; [reflexivity|].
  match goal with |- returns_from ?m ?s ∧ _ =>
    assert (returns_from m s) as H by (by do 2 eexists) end.
  split; [exact H|].
  exact (variant_evaluate_causal_score_raises HDEvaluator (Single.model_fwd HDEvaluator)
           stub_tokenize5 [[10]; [-5]] [[20]] [] ex_empty_store [(Qc_of_Z 7, Qc_of_Z 8)]
           _ _ eq_refl H).
Defined.

(** ** Gradient accumulation over an epoch *)

Section TrainEpochFacts.
Import TrainEpoch.
Context {X P : Type}.
Variable model : P → list X → exn + list Qc.
Variable ln : Qc → Qc.
Variable optimizer_step : P → list npval → P.

Lemma step_due (a i : nat) :
  (0 < a)%nat →
  (Z.of_nat i + 1) mod Z.of_nat a = 0 ↔ (i mod a + 1 = a)%nat.
Proof.
  intros Ha.
  replace (Z.of_nat i + 1) with (Z.of_nat (S i)) by lia.
  rewrite <- Nat2Z.inj_mod.
  pose proof (Nat.div_mod_eq i a) as Hi.
  pose proof (Nat.mod_upper_bound i a ltac:(lia)) as Hlt.
  destruct (decide (i mod a + 1 = a)%nat) as [Heq|Hne].
  - assert (S i mod a = 0)%nat as ->.
    { symmetry. apply (Nat.mod_unique (S i) a (S (i / a)) 0); lia. }
    split; [done | lia].
  - assert (S i mod a = i mod a + 1)%nat as ->.
    { symmetry. apply (Nat.mod_unique (S i) a (i / a)); lia. }
    split; lia.
Qed.

Lemma train_loop_no_step (a : nat) chunk : ∀ i rest p grads,
  (0 < a)%nat → (i mod a + length chunk < a)%nat →
  train_loop model ln optimizer_step (Z.of_nat a) i (chunk ++ rest) p grads
  = match accumulate_group model ln (Z.of_nat a) p chunk grads with
    | inl e => inl e
    | inr grads' =>
        train_loop model ln optimizer_step (Z.of_nat a) (i + length chunk) rest p grads'
    end.
Proof.
  induction chunk as [|b chunk IH]; intros i rest p grads Ha Hlen.
  - simpl. by rewrite Nat.add_0_r.
  - simpl in *. unfold mbind, pyexn_bind.
    destruct (batch_step model ln (Z.of_nat a) p b grads) as [e|grads1]; [done|].
    rewrite decide_False by lia.
    rewrite decide_False by (rewrite step_due by done; lia).
    rewrite IH; [|done|].
    + by replace (S i + length chunk)%nat with (i + S (length chunk))%nat by lia.
    + pose proof (proj2 (step_due a i Ha)) as H.
      assert (S i mod a = i mod a + 1)%nat as ->; [|lia].
      pose proof (Nat.div_mod_eq i a).
      symmetry. apply (Nat.mod_unique (S i) a (i / a)); lia.
Qed.

Lemma train_loop_group (a : nat) group i rest p :
  (0 < a)%nat → (i mod a = 0)%nat → length group = a →
  train_loop model ln optimizer_step (Z.of_nat a) i (group ++ rest) p []
  = match group_step model ln optimizer_step (Z.of_nat a) p group with
    | inl e => inl e
    | inr p' => train_loop model ln optimizer_step (Z.of_nat a) (i + a) rest p' []
    end.
Proof.
  intros Ha Hi Hlen.
  destruct (exists_last (l := group)) as (chunk & b & ->).
  { intros ->. simpl in Hlen. lia. }
  rewrite length_app in Hlen. simpl in Hlen.
  rewrite <- (assoc_L (++)). rewrite train_loop_no_step by (done || lia).
  unfold group_step, mbind, pyexn_bind.
  assert (∀ grads,
    accumulate_group model ln (Z.of_nat a) p (chunk ++ [b]) grads
    = match accumulate_group model ln (Z.of_nat a) p chunk grads with
      | inl e => inl e
      | inr g => batch_step model ln (Z.of_nat a) p b g
      end) as Hsnoc.
  { clear. induction chunk as [|c chunk IH]; intros grads; simpl.
    - unfold mbind, pyexn_bind. by destruct (batch_step _ _ _ _ _ _).
    - unfold mbind, pyexn_bind.
      destruct (batch_step model ln (Z.of_nat a) p c grads); [done|]. apply IH. }
  rewrite Hsnoc.
  destruct (accumulate_group model ln (Z.of_nat a) p chunk []) as [e|g]; [done|].
  simpl. unfold mbind, pyexn_bind.
  destruct (batch_step model ln (Z.of_nat a) p b g) as [e|g1]; [done|].
  rewrite decide_False by lia.
  assert (((i + length chunk) mod a)%nat = length chunk) as Hmod.
  { pose proof (Nat.div_mod_eq i a).
    symmetry. apply (Nat.mod_unique (i + length chunk) a (i / a)); lia. }
  rewrite decide_True by (rewrite step_due by done; lia).
  simpl. f_equal. lia.
Qed.

Lemma train_loop_groups (a : nat) groups : ∀ i rest p,
  (0 < a)%nat → (i mod a = 0)%nat → Forall (λ g, length g = a) groups →
  train_loop model ln optimizer_step (Z.of_nat a) i (concat groups ++ rest) p []
  = match grouped_steps model ln optimizer_step (Z.of_nat a) p groups with
    | inl e => inl e
    | inr p' =>
        train_loop model ln optimizer_step (Z.of_nat a) (i + length groups * a) rest p' []
    end.
Proof.
  induction groups as [|g groups IH]; intros i rest p Ha Hi Hall.
  - simpl. by rewrite Nat.add_0_r.
  - apply Forall_cons in Hall as [Hg Hall]. simpl.
    rewrite <- (assoc_L (++)). rewrite train_loop_group by done.
    unfold mbind, pyexn_bind.
    destruct (group_step model ln optimizer_step (Z.of_nat a) p g) as [e|p1]; [done|].
    rewrite IH; [|done| |done].
    + destruct (grouped_steps _ _ _ _ _ _); [done|]. f_equal. lia.
    + pose proof (Nat.div_mod_eq i a).
      symmetry. apply (Nat.mod_unique (i + a) a (S (i / a))); lia.
Qed.

(** X17.  With [accumulate = a > 0], the training part of an epoch is a
    sequence of optimizer steps, one for every [a] consecutive batches and a
    last one for the fewer than [a] batches that are left: each step uses
    the gradients of its batches alone, all of them computed under the
    parameters that the step before it left.  When the number of batches is a
    multiple of [a], the last step is taken on zeroed gradients. *)
Theorem train_epoch_groups (a : nat) groups rest p :
  (0 < a)%nat → Forall (λ g, length g = a) groups → (length rest < a)%nat →
  train_epoch model ln optimizer_step (Z.of_nat a) (concat groups ++ rest) p
  = (p' ← grouped_steps model ln optimizer_step (Z.of_nat a) p groups;
     group_step model ln optimizer_step (Z.of_nat a) p' rest).
Proof.
  intros Ha Hall Hrest. unfold train_epoch.
  rewrite train_loop_groups by (done || by rewrite Nat.Div0.mod_0_l).
  unfold mbind, pyexn_bind.
  destruct (grouped_steps model ln optimizer_step (Z.of_nat a) p groups) as [e|p']; [done|].
  rewrite <- (app_nil_r rest) at 1.
  rewrite train_loop_no_step; [|done|].
  - unfold group_step, mbind, pyexn_bind.
    by destruct (accumulate_group model ln (Z.of_nat a) p' rest []).
  - simpl. assert ((length groups * a) mod a = 0)%nat as ->; [|lia].
    apply Nat.Div0.mod_mul.
Qed.

End TrainEpochFacts.

Lemma train_epoch_groups_witness :
  (0 < 2)%nat
  ∧ Forall (λ g : list (list Z * list (list Qc)), length g = 2%nat) [take 2 ex_batches]
  ∧ (length (drop 2 ex_batches) < 2)%nat
  ∧ TrainEpoch.train_epoch ex_param_model ex_ln ex_optimizer_step (Z.of_nat 2)
      (concat [take 2 ex_batches] ++ drop 2 ex_batches) 1%Qc
    = (p' ← TrainEpoch.grouped_steps ex_param_model ex_ln ex_optimizer_step (Z.of_nat 2)
              1%Qc [take 2 ex_batches];
       TrainEpoch.group_step ex_param_model ex_ln ex_optimizer_step (Z.of_nat 2) p'
         (drop 2 ex_batches)).
Proof.
  assert (Forall (λ g : list (list Z * list (list Qc)), length g = 2%nat)
            [take 2 ex_batches]) as Hall by (by repeat constructor).
  assert (length (drop 2 ex_batches) < 2)%nat as Hrest by (simpl; lia).
  split; [lia|]. split; [exact Hall|]. split; [exact Hrest|].
  exact (train_epoch_groups ex_param_model ex_ln ex_optimizer_step 2
           [take 2 ex_batches] (drop 2 ex_batches) 1%Qc ltac:(lia) Hall Hrest).
Defined.

(** ** The loss *)

Lemma Qc_of_Z_pos z : 0 < z → (0 < Qc_of_Z z)%Qc.
Proof.
  intros Hz. unfold Qclt. simpl. rewrite Qred_correct.
  unfold Qlt. simpl. lia.
Qed.

Lemma Qc_square_nonneg (x : Qc) : (0 ≤ x * x)%Qc.
Proof.
  unfold Qcle. change (this (x * x)%Qc) with (Qred (this x * this x)).
  rewrite Qred_correct. change (this 0%Qc) with (0%Q).
  destruct x as [[n d] Hx]. unfold Qle. simpl. nia.
Qed.

Lemma Qc_plus_nonneg_zero (a s : Qc) :
  (0 ≤ a)%Qc → (0 ≤ s)%Qc → (a + s)%Qc = 0%Qc → a = 0%Qc ∧ s = 0%Qc.
Proof.
  intros Ha Hs H.
  assert (a = 0%Qc) as ->.
  { apply Qcle_antisym; [|done].
    rewrite <- H. rewrite <- (Qcplus_0_r a) at 1.
    apply Qcplus_le_compat; [apply Qcle_refl | done]. }
  split; [done|]. by rewrite Qcplus_0_l in H.
Qed.

Lemma Qc_sum_squares (ts ps : list Qc) :
  length ts = length ps →
  let sq := zip_with (λ t p, (t - p) * (t - p))%Qc ts ps in
  (0 ≤ Qc_sum sq)%Qc ∧ (Qc_sum sq = 0%Qc ↔ ps = ts).
Proof.
  revert ps. induction ts as [|t ts IH]; intros [|p ps] Hlen; try done.
  injection Hlen as Hlen. destruct (IH ps Hlen) as [Hnn Hz].
  cbv zeta. simpl zip_with.
  change (Qc_sum (?x :: ?l)) with (x + Qc_sum l)%Qc.
  pose proof (Qc_square_nonneg (t - p)) as Hsq. split.
  - rewrite <- (Qcplus_0_r 0). by apply Qcplus_le_compat.
  - split.
    + intros H. apply Qc_plus_nonneg_zero in H as [H1 H2]; [|done..].
      apply Hz in H2 as ->. f_equal.
      assert ((t - p)%Qc = 0%Qc) as H0 by (by destruct (Qcmult_integral _ _ H1)).
      replace p with (t - (t - p))%Qc by ring. rewrite H0. ring.
    + intros [= -> ->]. rewrite (proj2 Hz eq_refl). ring.
Qed.

Section LossFacts.
Import Finetune.
Variable ln : Qc → Qc.

Lemma numbers_not_number (p tc : list Qc) :
  length p = length tc → Exists (λ c, (c ≤ Qc_of_Z (-1))%Qc) tc →
  numbers (zip_with square_diff (map (λ c, torch_log ln (c + 1%Qc)) tc) p) = None.
Proof.
  intros Hlen Hex. revert p Hlen.
  induction Hex as [c tc Hc|c tc _ IH]; intros [|x p] Hlen; try done.
  - simpl. unfold torch_log. rewrite decide_False; [done|].
    apply Qcle_not_lt.
    replace 0%Qc with (Qc_of_Z (-1) + 1%Qc)%Qc by by_evaluation.
    by apply Qcplus_le_mono_r.
  - simpl. rewrite IH by (simpl in Hlen; lia).
    by destruct (square_diff _ _).
Qed.

(** X18.  On a non-empty batch with one prediction per count:
    when every count is above -1, [log1pMSELoss] is a number, it is not
    negative, and it is zero when every prediction equals [ln (count + 1)]
    of its count; when some count is -1 or less, the logarithm is not a
    number and neither is the loss, whatever the predictions. *)
Theorem log1pMSELoss_sign log_predicted_counts true_counts :
  length log_predicted_counts = length true_counts → true_counts ≠ [] →
  (Forall (λ c, (Qc_of_Z (-1) < c)%Qc) true_counts →
     ∃ q, log1pMSELoss ln log_predicted_counts true_counts = inr (Num q)
          ∧ (0 ≤ q)%Qc
          ∧ (log_predicted_counts = map (λ c, ln (c + 1%Qc)) true_counts → q = 0%Qc))
  ∧ (Exists (λ c, (c ≤ Qc_of_Z (-1))%Qc) true_counts →
       log1pMSELoss ln log_predicted_counts true_counts = inr NaN).
Proof.
  intros Hlen Hne. split.
  - intros Hall. rewrite (log1pMSELoss_numbers ln _ _ Hlen Hall).
    set (ts := map (λ c, ln (c + 1%Qc)) true_counts).
    assert (length ts = length log_predicted_counts) as Hts
      by (subst ts; by rewrite length_map).
    destruct (Qc_sum_squares ts log_predicted_counts Hts) as [Hnn Hz].
    set (sq := zip_with (λ t p, (t - p) * (t - p))%Qc ts log_predicted_counts) in *.
    assert (length sq = length true_counts) as Hsq.
    { subst sq. rewrite length_zip_with. lia. }
    destruct sq as [|x sq'] eqn:Esq.
    { destruct true_counts; [done | simpl in Hsq; lia]. }
    rewrite <- Esq in *. unfold np_mean. rewrite Esq. rewrite <- Esq.
    set (n := Qc_of_Z (Z.of_nat (length sq))).
    assert (0 < n)%Qc as Hn.
    { subst n. apply Qc_of_Z_pos. rewrite Esq. simpl. lia. }
    assert (n ≠ 0%Qc) as Hn0.
    { subst n. apply Qc_of_Z_nonzero. rewrite Esq. simpl. lia. }
    exists (Qc_sum sq / n)%Qc. split; [done|]. split.
    + apply Qcnot_lt_le. intros Hneg.
      apply (Qcmult_lt_compat_r _ _ n) in Hneg; [|done].
      replace (Qc_sum sq / n * n)%Qc with (Qc_sum sq) in Hneg by (field; done).
      replace (0 * n)%Qc with 0%Qc in Hneg by ring.
      by apply Qclt_not_le in Hneg.
    + intros Heq. rewrite (proj2 Hz Heq). field. done.
  - intros Hex. unfold log1pMSELoss.
    rewrite broadcast1_same_length by (by rewrite length_map).
    cbn [mbind exn_bind mret exn_ret]. unfold torch_mean.
    by rewrite (numbers_not_number _ _ Hlen Hex).
Qed.

End LossFacts.

Lemma log1pMSELoss_sign_witness :
  (∃ q, Finetune.log1pMSELoss ex_ln [1%Qc; 2%Qc] [2%Qc; 0%Qc] = inr (Num q)
        ∧ (0 ≤ q)%Qc
        ∧ ([1%Qc; 2%Qc] = map (λ c, ex_ln (c + 1%Qc)) [2%Qc; 0%Qc] → q = 0%Qc))
  ∧ Finetune.log1pMSELoss ex_ln [1%Qc; 2%Qc] [2%Qc; Qc_of_Z (-1)] = inr NaN.
Proof.
  split.
  - apply (log1pMSELoss_sign ex_ln [1%Qc; 2%Qc] [2%Qc; 0%Qc]); [reflexivity | done |].
    repeat constructor; by_evaluation.
  - apply (log1pMSELoss_sign ex_ln [1%Qc; 2%Qc] [2%Qc; Qc_of_Z (-1)]);
      [reflexivity | done |].
    apply Exists_cons_tl, Exists_cons_hd. by_evaluation.
Defined.

(** ** A batch through a causal evaluator *)

(** X19.  A batch through [LikelihoodEvaluator.tokenize] and
    [CausalZeroShotScore.score], for an evaluator without start token and
    with the end token [e], as [HDEvaluator]: when [e] occurs exactly once
    in every row, the network is run once, on the tokens as they are, and
    the score of a row is the sum, over the positions before its end token,
    of the log-probability that the output at a position gives to the token
    at that same position. *)
Theorem causal_batch_score self enc st tokens a tk am e cols :
  start_token self = None → end_token self = Some e →
  enc !! "input_ids" = Some tokens → enc !! "attention_mask" = Some a →
  heap st !! tokens = Some tk → heap st !! a = Some am →
  tensor_wf tk → t_rows tk ≠ [] →
  Forall2 (unique_at e) (t_rows tk) cols →
  let r := run_batch (Single.tokenize self)
             (SingleMethods.call4
                (SingleMethods.CausalZeroShotScore_score self (Single.model_fwd self)))
             enc st in
  r.1 = inr (imap (λ n row,
                     Qc_sum (imap (λ i v,
                                     (log_softmax self (t_rows tk) (Some (t_rows am)) n i v
                                      * b2q (bool_decide (i < default 0 (cols !! n))%nat))%Qc)
                                  row))
                  (t_rows tk))
  ∧ fwd_log r.2 = fwd_log st ++ [FwdCall (t_rows tk) (Some (t_rows am))].
Proof.
  intros Hs He Hin Hmask Htk Ham Hwf Hne Hcols.
  pose proof (Forall2_length _ _ _ Hcols) as Hlen.
  assert (Single.tokenize self enc st
          = (inr (tokens, PerSeq (replicate (length (t_rows tk)) 0),
                  PerSeq (map Z.of_nat cols), PyTensor a), st)) as Htok.
  { unfold Single.tokenize, mbind, M_bind, lift, deref.
    rewrite Hin, Hmask, Hs, He. simpl. rewrite Htk. simpl.
    by rewrite (where_cols_unique _ _ _ Hcols). }
  pose proof (single_causal_score_computes self tokens a tk am
                (replicate (length (t_rows tk)) 0) (map Z.of_nat cols) st
                Htk Ham Hwf Hne) as Hscore.
  rewrite length_replicate, length_map in Hscore.
  specialize (Hscore eq_refl (eq_sym Hlen)). cbv zeta in Hscore.
  destruct Hscore as [Hres Hlog].
  cbv zeta. unfold run_batch, mbind, M_bind. rewrite Htok.
  unfold SingleMethods.call4, SingleMethods.CausalZeroShotScore_score.
  split; [|exact Hlog]. rewrite Hres. f_equal.
  apply imap_ext. intros n row Hn. simpl. f_equal.
  apply imap_ext. intros i v _. simpl. do 2 f_equal.
  apply lookup_lt_Some in Hn.
  unfold clip_at, in_range.
  rewrite lookup_replicate_2 by done.
  rewrite list_lookup_fmap.
  destruct (lookup_lt_is_Some_2 cols n ltac:(lia)) as [c Hc]. rewrite Hc. simpl.
  rewrite bool_decide_true by lia. simpl.
  apply bool_decide_ext. lia.
Qed.

Lemma causal_batch_score_witness :
  Forall2 (unique_at 2) (t_rows ex_tokens) [3%nat; 2%nat]
  ∧ let r := run_batch (Single.tokenize ex_causal_evaluator)
               (SingleMethods.call4
                  (SingleMethods.CausalZeroShotScore_score ex_causal_evaluator
                     (Single.model_fwd ex_causal_evaluator)))
               ex_encoded ex_store in
    r.1 = inr (imap (λ n row,
                       Qc_sum (imap (λ i v,
                                       (stub_log_softmax (t_rows ex_tokens)
                                          (Some (t_rows ex_mask)) n i v
                                        * b2q (bool_decide
                                                 (i < default 0 ([3%nat; 2%nat] !! n))%nat))%Qc)
                                    row))
                    (t_rows ex_tokens))
    ∧ fwd_log r.2 = fwd_log ex_store ++ [FwdCall (t_rows ex_tokens) (Some (t_rows ex_mask))].
Proof.
  assert (Forall2 (unique_at 2) (t_rows ex_tokens) [3%nat; 2%nat]) as Hcols.
  { constructor; [|constructor; [|constructor]].
    - split; [reflexivity|]. intros [|[|[|[|j]]]] Hj; by simplify_eq/=.
    - split; [reflexivity|]. intros [|[|[|[|j]]]] Hj; by simplify_eq/=. }
  split; [exact Hcols|].
  apply (causal_batch_score ex_causal_evaluator ex_encoded ex_store 1%positive 2%positive
           ex_tokens ex_mask 2 [3%nat; 2%nat]);
    first [reflexivity | exact Hcols | done | by repeat constructor].
Defined.

(** ** The validation loss *)

Section ValidationFacts.
Import Validation.
Context {X : Type}.
Variable model : list X → exn + list Qc.
Variable ln : Qc → Qc.

(** The predictions and the loss of a batch. *)
Let outcome (b : list X * list (list Qc)) (o : list Qc * npval) : Prop :=
  model b.1 = inr o.1 ∧ Finetune.log1pMSELoss ln o.1 (map Qc_sum b.2) = inr o.2.

Lemma val_loop_app dl1 dl2 s :
  val_loop model ln (dl1 ++ dl2) s = val_loop model ln dl1 s ≫= val_loop model ln dl2.
Proof.
  revert s. induction dl1 as [|b dl1 IH]; intros s; [done|].
  simpl. unfold mbind, exn_bind.
  destruct (val_batch model ln b s) as [e|s1]; [done|]. apply IH.
Qed.

Lemma val_loop_returns dl outs :
  Forall2 outcome dl outs →
  ∀ loss P T,
    val_loop model ln dl (MkVal loss P T)
    = inr (MkVal (foldl np_add loss outs.*2) (P ++ outs.*1)
                 (T ++ map (λ b, map Qc_sum b.2) dl)).
Proof.
  induction 1 as [|[seq track] [p L] dl outs [Hp HL] _ IH]; intros loss P T.
  - simpl. by rewrite !app_nil_r.
  - simpl in Hp, HL. cbn [val_loop val_batch]. rewrite Hp.
    unfold mbind at 1 2, exn_bind. rewrite HL.
    unfold mbind at 1, exn_bind. unfold mret, exn_ret.
    cbn [val_loss val_counts_pred val_counts_true].
    rewrite IH. simpl. by rewrite <- !(assoc_L (++)).
Qed.

(** X20.  When the model and the loss return on every validation batch:
    with no batch of peaks the first [torch.cat] raises [RuntimeError],
    even when there are other regions; otherwise the validation loss that
    is logged is the sum of the losses of the batches, added in the order
    of the two loops, divided by the number of batches, so that a batch
    weighs the same whatever its size, and the correlations over all
    regions are given the predictions and the counts of the batches in that
    order, peaks first. *)
Theorem validate_accumulates val_pos val_neg outs :
  Forall2 (λ b o, model b.1 = inr o.1
                  ∧ Finetune.log1pMSELoss ln o.1 (map Qc_sum b.2) = inr o.2)
          (val_pos ++ val_neg) outs →
  validate model ln val_pos val_neg
  = match val_pos with
    | [] => inl (Raised RuntimeError)
    | _ =>
        inr (Finetune.np_div (foldl np_add (Num 0%Qc) outs.*2)
               (Qc_of_Z (Z.of_nat (length val_pos + length val_neg))),
             concat outs.*1,
             concat (map (λ b, map Qc_sum b.2) (val_pos ++ val_neg)))
    end.
Proof.
  intros Hall. change (Forall2 outcome (val_pos ++ val_neg) outs) in Hall.
  apply Forall2_app_inv_l in Hall as (outs1 & outs2 & Hall1 & Hall2 & ->).
  unfold validate. rewrite (val_loop_returns val_pos outs1 Hall1).
  cbn [TrainEpoch.raised]. unfold mbind at 1, pyexn_bind.
  cbn [val_counts_pred val_counts_true app].
  destruct val_pos as [|b1 val_pos].
  { apply Forall2_nil_inv_l in Hall1 as ->. reflexivity. }
  destruct outs1 as [|o1 outs1]; [by apply Forall2_cons_nil_inv in Hall1|].
  set (pos := b1 :: val_pos) in *. set (opos := o1 :: outs1) in *.
  assert (torch_cat opos.*1 = inr (concat opos.*1)) as -> by done.
  assert (torch_cat (map (λ b : list X * list (list Qc), map Qc_sum b.2) pos)
          = inr (concat (map (λ b : list X * list (list Qc), map Qc_sum b.2) pos)))
    as -> by done.
  cbn [TrainEpoch.raised]. unfold mbind at 1 2, pyexn_bind.
  rewrite (val_loop_returns val_neg outs2 Hall2).
  cbn [TrainEpoch.raised]. unfold mbind at 1, pyexn_bind.
  rewrite decide_False by (subst pos; simpl; lia).
  cbn [val_counts_pred val_counts_true val_loss].
  assert (torch_cat (opos.*1 ++ outs2.*1) = inr (concat (opos.*1 ++ outs2.*1)))
    as -> by done.
  assert (∀ l, torch_cat (map (λ b : list X * list (list Qc), map Qc_sum b.2) pos ++ l)
               = inr (concat (map (λ b : list X * list (list Qc), map Qc_sum b.2) pos
                              ++ l))) as -> by done.
  cbn [TrainEpoch.raised]. unfold mbind, pyexn_bind, mret, pyexn_ret.
  by rewrite !fmap_app, foldl_app, <- map_app.
Qed.

End ValidationFacts.

(** Two peaks in one batch, with the losses 1 and 4, and one other region
    in a second batch, with the loss 1: the validation loss is the mean
    7/4 of the batch losses 5/2 and 1. *)
Lemma validate_accumulates_witness :
  Validation.validate ex_model ex_ln ex_val_pos ex_val_neg
  = inr (Num (Q2Qc (7 # 4)), [Qc_of_Z 1; Qc_of_Z 2; Qc_of_Z 3], [2%Qc; 0%Qc; 2%Qc]).
Proof.
  rewrite (validate_accumulates ex_model ex_ln ex_val_pos ex_val_neg
             [([Qc_of_Z 1; Qc_of_Z 2], Num (Q2Qc (5 # 2))); ([Qc_of_Z 3], Num 1%Qc)]).
  - by_evaluation.
  - constructor; [|constructor; [|constructor]]; (split; [reflexivity | by_evaluation]).
Defined.

(** ** The masked scorer of [single/evaluators.py] *)

(** With the tokens and the mask in the store, the network accepts the
    call with the mask, and the [model_fwd] of [single/evaluators.py] does
    what the one of [paired_control] does. *)
Lemma single_model_fwd_agrees self t a st :
  is_Some (heap st !! t) → is_Some (heap st !! a) →
  Single.model_fwd self [PyTensor t; PyTensor a] st
  = PairedControl.model_fwd self [PyTensor t; PyTensor a] st.
Proof.
  intros [tk Ht] [am Ha].
  unfold Single.model_fwd, PairedControl.model_fwd, try_except, run_model, log_call, deref,
    mbind, M_bind, mret, M_ret.
  by rewrite Ht, Ha.
Qed.

Lemma preserves_masked_score_step self fwd tokens a starts ends i lls :
  (∀ args, preserves (fwd args)) →
  preserves (masked_score_step self fwd tokens a starts ends i lls).
Proof.
  intros Hfwd. unfold masked_score_step.
  apply preserves_bind; [apply preserves_lift|]. intros clip_mask.
  apply preserves_clone_setitem. intros l'.
  apply preserves_bind; [apply Hfwd|]. intros out.
  apply preserves_bind; [apply preserves_lift | intros; apply preserves_lift].
Qed.

Lemma single_masked_step_agrees self tokens a starts ends i lls st :
  is_Some (heap st !! tokens) → is_Some (heap st !! a) →
  masked_score_step self (Single.model_fwd self) tokens a starts ends i lls st
  = masked_score_step self (PairedControl.model_fwd self) tokens a starts ends i lls st.
Proof.
  intros [tk Ht] [am Ha].
  assert (fresh (dom (heap st)) ≠ a) as Hfa.
  { intros <-. by rewrite fresh_lookup_None in Ha. }
  unfold masked_score_step, mbind, M_bind.
  destruct (lift _ st) as [[e|clip_mask] st0] eqn:Hclip; [done|].
  assert (st0 = st) as ->.
  { unfold lift in Hclip. by injection Hclip. }
  unfold clone, setitem_col, deref, alloc, write, mbind, M_bind, mret, M_ret.
  rewrite Ht. cbn [heap fwd_log]. rewrite lookup_insert_eq. cbn [heap fwd_log].
  rewrite single_model_fwd_agrees; [done| |].
  - cbn [heap]. by rewrite lookup_insert_eq.
  - cbn [heap]. rewrite !lookup_insert_ne by done. by rewrite Ha.
Qed.

Lemma single_masked_loop_agrees self tokens a starts ends n : ∀ k lls st,
  is_Some (heap st !! tokens) → is_Some (heap st !! a) →
  for_range_from k n (masked_score_step self (Single.model_fwd self) tokens a starts ends)
    lls st
  = for_range_from k n
      (masked_score_step self (PairedControl.model_fwd self) tokens a starts ends) lls st.
Proof.
  induction n as [|n IH]; intros k lls st Ht Ha; [done|].
  simpl. unfold mbind, M_bind. rewrite single_masked_step_agrees by done.
  pose proof (preserves_masked_score_step self (PairedControl.model_fwd self)
                tokens a starts ends k lls (preserves_paired_model_fwd self) st) as Hsub.
  destruct (masked_score_step _ _ _ _ _ _ _ _ st) as [[e|lls1] st1]; [done|].
  simpl in Hsub. destruct Ht as [tk Ht], Ha as [am Ha].
  apply IH; eexists; eapply lookup_weaken; eauto.
Qed.

Lemma single_masked_score_agrees self tokens a starts ends st :
  is_Some (heap st !! tokens) → is_Some (heap st !! a) →
  masked_score self (Single.model_fwd self) tokens starts ends (PyTensor a) st
  = masked_score self (PairedControl.model_fwd self) tokens starts ends (PyTensor a) st.
Proof.
  intros [tk Htk] [am Ham].
  destruct (tensor_to_spec (self_device self) tokens st tk Htk)
    as (tokens' & st1 & tk' & Hto1 & Hsub1 & _ & Htk' & _).
  destruct (tensor_to_spec (self_device self) a st1 am (lookup_weaken _ _ _ _ Ham Hsub1))
    as (a' & st2 & am' & Hto2 & Hsub2 & _ & Ham' & _).
  pose proof (lookup_weaken _ _ _ _ Htk' Hsub2) as Htk2.
  unfold masked_score, mbind, M_bind, for_range, deref. rewrite Hto1, Hto2, Htk2.
  by rewrite single_masked_loop_agrees.
Qed.

(** X21.  What [MaskedZeroShotScore.score] of [single/evaluators.py]
    returns with the [model_fwd] of that file, for a rectangular batch with
    its attention mask and one start and one end per row: the network is
    run once per position, on the batch with that column overwritten by the
    mask token id, and the score of a row is the sum, over the positions
    inside its boundaries, of the log-probability given at the masked
    position to the mask token id itself, not to the token that was
    masked: the cross-entropy is taken against the masked batch. *)
Theorem single_masked_score_scores_mask_token self tokens a om tk am ss es st :
  heap st !! tokens = Some tk → heap st !! a = Some am → tensor_wf tk →
  length ss = length (t_rows tk) → length es = length (t_rows tk) →
  let r := Single.MaskedZeroShotScore_score self (Single.model_fwd self)
             tokens (PerSeq ss) (PerSeq es) (PyTensor a) om st in
  r.1 = inr (masked_sum self (λ _ _, mask_token self) (t_cols tk) (t_rows tk)
               (Some (t_rows am)) (clip_at ss es))
  ∧ fwd_log r.2
    = fwd_log st ++ map (λ i, FwdCall (mask_column i (mask_token self) (t_rows tk))
                                      (Some (t_rows am)))
                        (seq 0 (t_cols tk)).
Proof.
  intros Htk Ham Hwf Hss Hes. cbv zeta.
  unfold Single.MaskedZeroShotScore_score.
  rewrite single_masked_score_agrees by (by eexists).
  exact (masked_score_per_seq self tokens a tk am ss es st Htk Ham Hwf Hss Hes).
Qed.

Lemma single_masked_score_scores_mask_token_witness :
  let r := Single.MaskedZeroShotScore_score DNABERT2Evaluator
             (Single.model_fwd DNABERT2Evaluator)
             1%positive (PerSeq [1; 1]) (PerSeq [3; 2]) (PyTensor 2%positive) PyNone
             ex_store in
  r.1 = inr (masked_sum DNABERT2Evaluator (λ _ _, mask_token DNABERT2Evaluator)
               (t_cols ex_tokens) (t_rows ex_tokens)
               (Some (t_rows ex_mask)) (clip_at [1; 1] [3; 2]))
  ∧ fwd_log r.2
    = fwd_log ex_store
      ++ map (λ i, FwdCall (mask_column i (mask_token DNABERT2Evaluator) (t_rows ex_tokens))
                           (Some (t_rows ex_mask)))
             (seq 0 (t_cols ex_tokens)).
Proof.
  apply (single_masked_score_scores_mask_token DNABERT2Evaluator 1%positive 2%positive
           PyNone ex_tokens ex_mask [1; 1] [3; 2] ex_store);
    first [reflexivity | by repeat constructor].
Defined.

(** ** Ranks by a double argsort *)

Lemma StronglySorted_lookup {A} (R : relation A) (l : list A) :
  (∀ a b va vb, (a < b)%nat → l !! a = Some va → l !! b = Some vb → R va vb) →
  StronglySorted R l.
Proof.
  induction l as [|x l IH]; intros H; constructor.
  - apply IH. intros a b va vb Hab Ha Hb. apply (H (S a) (S b)); [lia | done..].
  - apply Forall_lookup. intros b vb Hb. apply (H 0%nat (S b)); [lia | done..].
Qed.

Lemma map_lookup_seq {A} (d : A) (l : list A) :
  map (λ i, default d (l !! i)) (seq 0 (length l)) = l.
Proof.
  apply list_eq. intros i. rewrite list_lookup_fmap.
  destruct (l !! i) as [v|] eqn:Hi.
  - rewrite lookup_seq_lt by (by eapply lookup_lt_Some). simpl. by rewrite Hi.
  - apply lookup_ge_None in Hi. by rewrite lookup_seq_ge.
Qed.

Lemma length_filter_prefix {A} (P : A → Prop) `{!∀ y, Decision (P y)} (l : list A) :
  ∀ p, (p ≤ length l)%nat →
  (∀ a y, l !! a = Some y → P y ↔ (a < p)%nat) →
  length (filter P l) = p.
Proof.
  induction l as [|x l IH]; intros p Hp Hpre.
  - simpl in *. lia.
  - destruct p as [|p].
    + rewrite filter_cons_False by (intros Hx; apply (Hpre 0%nat x eq_refl) in Hx; lia).
      apply IH; [lia|]. intros a y Ha. rewrite (Hpre (S a) y Ha). lia.
    + rewrite filter_cons_True by (apply (Hpre 0%nat x eq_refl); lia).
      simpl. f_equal. apply IH; [simpl in Hp; lia|].
      intros a y Ha. rewrite (Hpre (S a) y Ha). lia.
Qed.

(** The second argsort inverts the first: the entry [i] of its result is
    the position at which the first result holds [i]. *)
Lemma argsort_argsort_inverse (n : nat) (idx rk : list nat) :
  idx ≡ₚ seq 0 n → is_argsort le idx rk →
  ∀ i p, rk !! i = Some p → idx !! p = Some i.
Proof.
  intros Hidx [Hrk Hsorted].
  pose proof (Permutation_length Hidx) as Hlen. rewrite length_seq in Hlen.
  rewrite Hlen in Hrk.
  set (s := map (λ r, default 0%nat (idx !! r)) rk).
  assert (s = seq 0 n) as Hs.
  { apply (StronglySorted_unique le).
    - apply StronglySorted_lookup. intros a b va vb Hab Ha Hb.
      unfold s in Ha, Hb. rewrite list_lookup_fmap in Ha, Hb.
      destruct (rk !! a) as [ra|] eqn:Hra; [|done].
      destruct (rk !! b) as [rb|] eqn:Hrb; [|done].
      simpl in Ha, Hb. injection Ha as <-. injection Hb as <-.
      assert (ra < length idx)%nat as Hra'.
      { rewrite Hlen. eapply (elem_of_seq 0), elem_of_Permutation_proper;
          [symmetry; exact Hrk|]. by eapply list_elem_of_lookup_2. }
      assert (rb < length idx)%nat as Hrb'.
      { rewrite Hlen. eapply (elem_of_seq 0), elem_of_Permutation_proper;
          [symmetry; exact Hrk|]. by eapply list_elem_of_lookup_2. }
      destruct (lookup_lt_is_Some_2 idx ra Hra') as [va Hva].
      destruct (lookup_lt_is_Some_2 idx rb Hrb') as [vb Hvb].
      rewrite Hva, Hvb. simpl. by apply (Hsorted a b ra rb va vb).
    - apply StronglySorted_lookup. intros a b va vb Hab Ha Hb.
      apply lookup_seq in Ha as [-> _]. apply lookup_seq in Hb as [-> _]. lia.
    - unfold s. rewrite Hrk. rewrite <- Hlen at 1. rewrite map_lookup_seq. exact Hidx. }
  intros i p Hi.
  assert (s !! i = Some i) as Hsi.
  { rewrite Hs. apply lookup_seq_lt.
    apply lookup_lt_Some in Hi. rewrite (Permutation_length Hrk), length_seq in Hi. done. }
  unfold s in Hsi. rewrite list_lookup_fmap, Hi in Hsi. simpl in Hsi.
  assert (p < length idx)%nat as Hp.
  { rewrite Hlen. eapply (elem_of_seq 0), elem_of_Permutation_proper;
      [symmetry; exact Hrk|]. by eapply list_elem_of_lookup_2. }
  destruct (lookup_lt_is_Some_2 idx p Hp) as [v Hv].
  rewrite Hv in Hsi. simpl in Hsi. by injection Hsi as ->.
Qed.

Section RanksFacts.
Import Spearman.
Variable argsort : list Qc → list nat.
Variable argsort_int : list nat → list nat.

(** X22.  When the two calls of [argsort] keep to their contract and the
    values are all different, [x.argsort().argsort()] holds at every index
    the rank of the value there, counted from 0: the number of values that
    are smaller. *)
Theorem ranks_count_smaller (x : list Qc) :
  is_argsort Qcle x (argsort x) →
  is_argsort le (argsort x) (argsort_int (argsort x)) →
  NoDup x →
  ∀ i v, x !! i = Some v →
    ranks argsort argsort_int x !! i
    = Some (length (filter (λ y, (y < v)%Qc) x)).
Proof.
  intros [Hperm Hsorted] Hrk Hnd i v Hi. unfold ranks.
  set (idx := argsort x) in *. set (rk := argsort_int idx) in *.
  pose proof (argsort_argsort_inverse (length x) idx rk Hperm Hrk) as Hinv.
  destruct Hrk as [Hrkperm _].
  pose proof (Permutation_length Hperm) as Hlen. rewrite length_seq in Hlen.
  pose proof (Permutation_length Hrkperm) as Hrklen. rewrite length_seq, Hlen in Hrklen.
  destruct (lookup_lt_is_Some_2 rk i) as [p Hp].
  { rewrite Hrklen. by eapply lookup_lt_Some. }
  rewrite Hp. f_equal.
  pose proof (Hinv i p Hp) as Hidxp.
  set (xs := map (λ j, default 0%Qc (x !! j)) idx).
  assert (xs ≡ₚ x) as Hxs.
  { unfold xs. rewrite Hperm. by rewrite map_lookup_seq. }
  rewrite <- Hxs. symmetry.
  assert (∀ a j, idx !! a = Some j → ∃ y, x !! j = Some y ∧ xs !! a = Some y) as Hat.
  { intros a j Ha.
    assert (j < length x)%nat as Hj.
    { eapply (elem_of_seq 0), elem_of_Permutation_proper; [symmetry; exact Hperm|].
      by eapply list_elem_of_lookup_2. }
    destruct (lookup_lt_is_Some_2 x j Hj) as [y Hy]. exists y. split; [done|].
    unfold xs. by rewrite list_lookup_fmap, Ha; simpl; rewrite Hy. }
  assert (xs !! p = Some v) as Hxp.
  { destruct (Hat p i Hidxp) as (y & Hy & Hxy). by simplify_eq. }
  assert (NoDup xs) as Hndxs by (by rewrite Hxs).
  apply length_filter_prefix.
  - apply lookup_lt_Some in Hxp. lia.
  - intros a y Ha.
    assert (a < length idx)%nat as Ha'.
    { apply lookup_lt_Some in Ha. unfold xs in Ha. by rewrite length_map in Ha. }
    destruct (lookup_lt_is_Some_2 idx a Ha') as [j Hj].
    destruct (Hat a j Hj) as (y' & Hy' & Hxy'). simplify_eq.
    destruct (lt_eq_lt_dec a p) as [[Hlt| ->]|Hgt].
    + split; [done|]. intros _.
      pose proof (Hsorted a p j i y v Hlt Hj Hidxp Hy' Hi) as Hle.
      apply Qcle_lt_or_eq in Hle as [Hle| ->]; [done|].
      pose proof (NoDup_lookup _ _ _ _ Hndxs Ha Hxp). lia.
    + simplify_eq. split; [|lia]. intros Hlt. by apply Qclt_not_eq in Hlt.
    + split; [|lia]. intros Hlt.
      pose proof (Hsorted p a i j v y Hgt Hidxp Hj Hi Hy') as Hle.
      by apply Qcle_not_lt in Hle.
Qed.

End RanksFacts.

Lemma ranks_count_smaller_witness :
  is_argsort Qcle ex_log_preds (ex_argsort Qcle ex_log_preds)
  ∧ is_argsort le (ex_argsort Qcle ex_log_preds)
      (ex_argsort le (ex_argsort Qcle ex_log_preds))
  ∧ NoDup ex_log_preds
  ∧ ∀ i v, ex_log_preds !! i = Some v →
      Spearman.ranks (ex_argsort Qcle) (ex_argsort le) ex_log_preds !! i
      = Some (length (filter (λ y, (y < v)%Qc) ex_log_preds)).
Proof.
  assert (ex_argsort Qcle ex_log_preds = [1; 2; 0]%nat) as Hidx by (by vm_compute).
  assert (ex_argsort le [1; 2; 0]%nat = [2; 0; 1]%nat) as Hrk by (by vm_compute).
  assert (is_argsort Qcle ex_log_preds (ex_argsort Qcle ex_log_preds)) as H1.
  { rewrite Hidx. split.
    - apply (bool_decide_unpack _). by vm_compute.
    - intros [|[|[|a]]] [|[|[|b]]] i j vi vj Hab Hi Hj Hvi Hvj;
        simplify_eq/=; try lia; by_evaluation. }
  assert (is_argsort le (ex_argsort Qcle ex_log_preds)
            (ex_argsort le (ex_argsort Qcle ex_log_preds))) as H2.
  { rewrite Hidx, Hrk. split.
    - apply (bool_decide_unpack _). by vm_compute.
    - intros [|[|[|a]]] [|[|[|b]]] i j vi vj Hab Hi Hj Hvi Hvj;
        simplify_eq/=; lia. }
  assert (NoDup ex_log_preds) as H3.
  { apply (bool_decide_unpack _). by vm_compute. }
  split; [exact H1|]. split; [exact H2|]. split; [exact H3|].
  exact (ranks_count_smaller (ex_argsort Qcle) (ex_argsort le) ex_log_preds H1 H2 H3).
Defined.
